(** * codemetrics: the Subversion log collector and the aggregation engine

    A shallow embedding of [codemetrics/svn.py] (boolean coercion and the
    per-entry conversion of [svn log --xml -v] output) and of
    [codemetrics/core.py] (mass change sets, ages, hot spots, co-changes),
    with the properties the specification states about them. *)

From Stdlib Require Import NArith ZArith QArith Qabs Qpower Lqa Ascii String.
From stdpp Require Import base tactics option list sorting strings gmap.

#[local] Set Warnings "-clear-no-such-hyp".

(** ** Python values and exceptions *)

(** The exception classes the modelled code raises or catches. The argument
    is [str(err)]. *)
Inductive PyExc : Type :=
  | AssertionError (msg : string)
  | AttributeError (msg : string)
  | KeyError (msg : string)
  | OverflowError (msg : string)
  | SyntaxError (msg : string)
  | TypeError (msg : string)
  | ValueError (msg : string).

Definition exc_str (e : PyExc) : string :=
  match e with
  | AssertionError m | AttributeError m | KeyError m | OverflowError m
  | SyntaxError m | TypeError m | ValueError m => m
  end.

(** A call either returns or raises. *)
Inductive result (A : Type) : Type :=
  | Ok (a : A)
  | Raise (e : PyExc).
Arguments Ok {A} a.
Arguments Raise {A} e.

#[global] Instance result_ret : MRet result := fun A a => Ok a.
#[global] Instance result_bind : MBind result := fun A B k r =>
  match r with
  | Ok a => k a
  | Raise e => Raise e
  end.

(** What [process_entry] keeps for an XML attribute: the attribute's string,
    or [np.nan] when the attribute is not on the element. *)
Inductive PyVal : Type :=
  | PyStr (s : string)
  | PyNaN.

(** ** Strings *)

(** [str.lower]. Strings are byte strings here (UTF-8); only the ASCII
    letters are mapped. No character outside ASCII lowers to one of the
    letters of the literals [to_bool] compares with, so membership in its two
    tuples is decided as in Python. *)
Definition lower_ascii (c : ascii) : ascii :=
  let n := N_of_ascii c in
  if ((65 <=? n) && (n <=? 90))%N then ascii_of_N (n + 32) else c.

Fixpoint lower (s : string) : string :=
  match s with
  | EmptyString => EmptyString
  | String c s' => String (lower_ascii c) (lower s')
  end.

(** [s.replace(old, new)]: every occurrence of [old], left to right, without
    overlap. [old] is never empty where the code calls it. *)
Fixpoint strip_prefix (p s : string) : option string :=
  match p with
  | EmptyString => Some s
  | String a p' =>
      match s with
      | EmptyString => None
      | String b s' => if Ascii.eqb a b then strip_prefix p' s' else None
      end
  end.

Fixpoint replace_fuel (fuel : nat) (old new s : string) : string :=
  match fuel with
  | O => s
  | S fuel' =>
      match strip_prefix old s with
      | Some rest =>
          match old with
          | EmptyString => s
          | String _ _ => new +:+ replace_fuel fuel' old new rest
          end
      | None =>
          match s with
          | EmptyString => EmptyString
          | String c s' => String c (replace_fuel fuel' old new s')
          end
      end
  end.

Definition replace (old new s : string) : string :=
  replace_fuel (S (String.length s)) old new s.

(** The line feed. *)
Definition LF : ascii := ascii_of_nat 10.

(** [s.split(sep)] for a separator of one character. *)
Fixpoint split (sep : ascii) (s : string) : list string :=
  match s with
  | EmptyString => [EmptyString]
  | String c s' =>
      if Ascii.eqb c sep then EmptyString :: split sep s'
      else match split sep s' with
           | l :: ls => String c l :: ls
           | [] => [String c EmptyString]
           end
  end.

(** The character [c] is in [s]. *)
Definition has_char (c : ascii) (s : string) : Prop :=
  c ∈ list_ascii_of_string s.

(** ** scm.py *)

Module scm.

(** The namedtuple [LogEntry], with the eleven fields [scm.py] declares, in
    their order. [None] is Python's [None] for [author] and [message], and
    [np.nan] for [added] and [removed]; [date] is the instant in nanoseconds
    since the epoch, UTC. *)
Record LogEntry : Type := mkLogEntry {
  revision : string;
  author : option string;
  date : Z;
  textmods : bool;
  kind : PyVal;
  action : PyVal;
  propmods : bool;
  path : string;
  message : option string;
  added : option Z;
  removed : option Z;
}.

(** [LogEntry._fields]. *)
Definition _fields : list string :=
  ["revision"; "author"; "date"; "textmods"; "kind"; "action"; "propmods";
   "path"; "message"; "added"; "removed"].

(** The call [LogEntry(...)] with the keywords [keywords], in the order of
    the call; [entry] is the tuple of the arguments that name a field. A
    keyword that names no field makes [__new__] raise a TypeError, which
    names the first such keyword (the text is that of Python up to 3.9;
    later versions put the name of the class before it). *)
Definition LogEntry_new (keywords : list string) (entry : LogEntry)
    : result LogEntry :=
  match filter (λ k, k ∉ _fields) keywords with
  | [] => Ok entry
  | k :: _ =>
      Raise (TypeError ("__new__() got an unexpected keyword argument '"
                        +:+ k +:+ "'"))
  end.

(** A [datetime.datetime]: what its fields (year to microsecond) count in
    microseconds from [datetime.min], the first instant of the year 1, and
    the offset of its [tzinfo] where it has one. *)
Record datetime : Type := mkdatetime {
  timestamp : Z;
  tzinfo : option Z;
}.

(** [datetime.max], the last microsecond of the year 9999, is 3652059 days
    after [datetime.min], less a microsecond. *)
Definition datetime_max : Z := 3652059 * 86400000000 - 1.

(** [dt.timedelta(365)], in microseconds. *)
Definition timedelta_365 : Z := 365 * 86400000000.

(** [d - delta]: the fields move and the [tzinfo] stays; a result before
    [datetime.min] or after [datetime.max] raises OverflowError. *)
Definition sub_timedelta (d : datetime) (delta : Z) : result datetime :=
  let t := (timestamp d - delta)%Z in
  if ((0 <=? t) && (t <=? datetime_max))%Z
  then Ok (mkdatetime t (tzinfo d))
  else Raise (OverflowError "date value out of range").

Definition assert_ (b : bool) : result unit :=
  if b then Ok () else Raise (AssertionError "").

Section ScmLogCollector.

(** What a progress bar is does not matter to the constructor. *)
Variable ProgressBar : Type.

Record _ScmLogCollector : Type := {
  self_path : string;
  self_after : option datetime;
  self_before : option datetime;
  self_progress_bar : option ProgressBar;
}.

(** [after is None or after.tzinfo is not None]. *)
Definition none_or_aware (d : option datetime) : bool :=
  match d with
  | None => true
  | Some d => bool_decide (is_Some (tzinfo d))
  end.

(** [_ScmLogCollector.__init__]. [now] is what [get_now()] returns; a
    datetime is true in a condition, so [after or ...] is [after] unless it
    is [None], and the difference is computed only then. *)
Definition __init__ (now : datetime) (after before : option datetime)
    (path : string) (progress_bar : option ProgressBar)
    : result _ScmLogCollector :=
  _ ← assert_ (none_or_aware after);
  self_after ←
    match after with
    | Some a => Ok (Some a)
    | None => d ← sub_timedelta now timedelta_365; mret (Some d)
    end;
  _ ← assert_ (none_or_aware before);
  if bool_decide (is_Some progress_bar) && bool_decide (self_after = None)
  then Raise (ValueError "progress_bar requires 'after' parameter")
  else Ok {| self_path := path; self_after := self_after;
             self_before := before; self_progress_bar := progress_bar |}.

End ScmLogCollector.

End scm.

(** ** xml.etree.ElementTree *)

Module ET.

#[local] Unset Elimination Schemes.
Inductive Element : Type :=
  mkElement (tag : string) (attrib : gmap string string)
            (text : option string) (children : list Element).
#[local] Set Elimination Schemes.

Definition tag (e : Element) : string := let (t, _, _, _) := e in t.
Definition attrib (e : Element) : gmap string string := let (_, a, _, _) := e in a.
Definition text (e : Element) : option string := let (_, _, t, _) := e in t.
Definition children (e : Element) : list Element := let (_, _, _, c) := e in c.

(** [elem.find("./" + sub)]: the first child with that tag. *)
Definition find (elem : Element) (sub : string) : option Element :=
  List.find (λ c, String.eqb (tag c) sub) (children elem).

(** [elem.findall("*/" + name)]: the children named [name] of every child,
    in document order. *)
Definition findall_in_children (elem : Element) (name : string) : list Element :=
  flat_map (λ c, List.filter (λ g, String.eqb (tag g) name) (children c))
           (children elem).

End ET.

(** ** svn.py *)

Module svn.

(** [to_bool]: [bool_str.lower()] is an attribute lookup, which a float
    ([np.nan]) does not have. *)
Definition to_bool (bool_str : PyVal) : result bool :=
  match bool_str with
  | PyNaN => Raise (AttributeError "'float' object has no attribute 'lower'")
  | PyStr s =>
      let bool_str_lc := lower s in
      if bool_decide (bool_str_lc ∈ ["true"; "1"; "t"]) then Ok true
      else if bool_decide (bool_str_lc ∈ ["false"; "0"; "f"; ""]) then Ok false
      else Raise (ValueError ("cannot interpret " +:+ s +:+ " as a bool"))
  end.

(** The collector. [relative_url] is what the property of that name returns
    ([update_urls] asks the svn client when the field is unset, and may leave
    it [None]). *)
Record _SvnLogCollector : Type := {
  svn_client : string;
  self_path : string;
  relative_url : option string;
}.

(** [_extract]. [find] with these fixed paths does not raise, so the
    [except] clause, and with it [on_error], has nothing to catch. *)
Definition _extract (elem : ET.Element) (sub : string)
    (on_error : option string) : option string :=
  match ET.find elem sub with
  | Some subel => ET.text subel
  | None => None
  end.

(** What a run of the generator [process_entry] does: the entries it yields,
    the warnings it logs, and the exception that ends it, if any. *)
Record Run : Type := mkRun {
  yielded : list scm.LogEntry;
  warnings : list string;
  raised : option PyExc;
}.

Definition newline : string := String (ascii_of_nat 10) "".

Section process_entry.

(** [to_date]: dateutil parses the text; the result is the instant, or the
    parser's exception. *)
Variable to_date : string → result Z.

(** The body of the [try] around the path text. *)
Definition path_text (rel_url_slash : string) (path_elem : ET.Element)
    : result string :=
  match ET.text path_elem with
  | None => Raise (AssertionError "")
  | Some path_elem_text => Ok (replace rel_url_slash "" path_elem_text)
  end.

(** The [try] with its [except (AttributeError, SyntaxError, ValueError)]:
    the path and the warning logged, or the exception that is not caught. *)
Definition try_path (rev rel_url_slash : string) (path_elem : ET.Element)
    : result (string * list string) :=
  match path_text rel_url_slash path_elem with
  | Ok path => Ok (path, [])
  | Raise (AttributeError _ as err)
  | Raise (SyntaxError _ as err)
  | Raise (ValueError _ as err) =>
      let msg := exc_str err +:+ " processing rev " +:+ rev in
      Ok (msg, [msg])
  | Raise err => Raise err
  end.

(** The attributes kept in [other]: [KeyError] is caught and gives
    [np.nan]. *)
Definition other (path_elem : ET.Element) (sub : string) : PyVal :=
  match ET.attrib path_elem !! sub with
  | Some v => PyStr v
  | None => PyNaN
  end.

(** The keywords of the call of [scm.LogEntry] in [process_entry], after
    its three positional arguments. *)
Definition keywords : list string :=
  ["path"; "message"; "textmods"; "kind"; "action"; "propmods";
   "copyfromrev"; "copyfrompath"; "added"; "removed"].

(** The [assert date is not None] and the call of [scm.LogEntry]: its
    arguments are evaluated left to right, then the tuple is made. The
    values of [copyfromrev] and [copyfrompath] are looked up in [other]
    without error and belong to no field. *)
Definition make_entry (rev : string) (author date message : option string)
    (path : string) (path_elem : ET.Element) : result scm.LogEntry :=
  match date with
  | None => Raise (AssertionError "expected datetime got None")
  | Some datestr =>
      d ← to_date datestr;
      tm ← to_bool (other path_elem "text-mods");
      pm ← to_bool (other path_elem "prop-mods");
      scm.LogEntry_new keywords
        {| scm.revision := rev;
           scm.author := author;
           scm.date := d;
           scm.textmods := tm;
           scm.kind := other path_elem "kind";
           scm.action := other path_elem "action";
           scm.propmods := pm;
           scm.path := path;
           scm.message := message;
           scm.added := None;
           scm.removed := None |}
  end.

(** The loop over the path elements. *)
Fixpoint process_paths (rev : string) (author date message : option string)
    (rel_url_slash : string) (path_elems : list ET.Element) : Run :=
  match path_elems with
  | [] => mkRun [] [] None
  | path_elem :: rest =>
      match try_path rev rel_url_slash path_elem with
      | Raise err => mkRun [] [] (Some err)
      | Ok (path, warned) =>
          match make_entry rev author date message path path_elem with
          | Raise err => mkRun [] warned (Some err)
          | Ok entry =>
              let r := process_paths rev author date message
                                     rel_url_slash rest in
              mkRun (entry :: yielded r) (warned ++ warnings r) (raised r)
          end
      end
  end.

(** [process_entry], from the element [ET.fromstring(log_entry)] gives. *)
Definition process_entry (self : _SvnLogCollector) (elem : ET.Element) : Run :=
  match ET.attrib elem !! "revision" with
  | None => mkRun [] [] (Some (KeyError "'revision'"))
  | Some rev =>
      let author := _extract elem "author" None in
      let date := _extract elem "date" (Some "raise") in
      let message := replace newline " " <$> _extract elem "msg" None in
      match relative_url self with
      | None =>
          mkRun [] [] (Some (TypeError
            "unsupported operand type(s) for +: 'NoneType' and 'str'"))
      | Some url =>
          process_paths rev author date message (url +:+ "/")
                        (ET.findall_in_children elem "path")
      end
  end.

End process_entry.

(** [rel_url_re.match(line)] and its [group(1)]. The pattern is the text
    "Relative URL: ^", a greedy group of any characters, an optional slash
    and the end of the line. The group takes the rest of the line, a final
    slash included, and leaves nothing to the optional slash; it does not
    cross a line feed, and the end accepts one only as the last character. *)
Definition match_relative_url (line : string) : option string :=
  rest ← strip_prefix "Relative URL: ^" line;
  match split LF rest with
  | [url] => Some url
  | [url; EmptyString] => Some url
  | _ => None
  end.

(** The loop of [update_urls]: the first line that matches. *)
Fixpoint first_relative_url (lines : list string) : option string :=
  match lines with
  | [] => None
  | line :: lines' =>
      match match_relative_url line with
      | Some url => Some url
      | None => first_relative_url lines'
      end
  end.

(** [update_urls], from the field [_relative_url] and the output [info] of
    [svn info]: what it leaves in the field and returns. [None] and the
    empty string are both false in [not self._relative_url]. *)
Definition update_urls (_relative_url : option string) (info : string)
    : option string :=
  match _relative_url with
  | Some (String _ _ as url) => Some url
  | _ =>
      match first_relative_url (split LF info) with
      | Some url => Some url
      | None => _relative_url
      end
  end.

(** The property [relative_url]. *)
Definition relative_url_property (_relative_url : option string)
    (info : string) : option string :=
  match _relative_url with
  | None => update_urls None info
  | Some url => Some url
  end.

(** The entries of one run, then those of the next. *)
Definition then_run (r rest : Run) : Run :=
  mkRun (yielded r ++ yielded rest) (warnings r ++ warnings rest)
        (raised rest).

Section process_log_entries.

Variable to_date : string → result Z.

(** [ET.fromstring]: the element, or the parser's exception. *)
Variable fromstring : string → result ET.Element.

(** [process_entry] from the text of the entry. *)
Definition process_entry_text (self : _SvnLogCollector) (log_entry : string)
    : Run :=
  match fromstring log_entry with
  | Raise err => mkRun [] [] (Some err)
  | Ok elem => process_entry to_date self elem
  end.

(** The loop of [process_log_entries], from the buffer [log_entry]. An
    exception of [process_entry] leaves the generator. *)
Fixpoint process_lines (self : _SvnLogCollector) (log_entry : string)
    (xml : list string) : Run :=
  match xml with
  | [] => mkRun [] [] None
  | line :: xml' =>
      if String.prefix "<logentry" line
      then process_lines self (log_entry +:+ line) xml'
      else if String.eqb log_entry ""
      then process_lines self log_entry xml'
      else
        let log_entry := log_entry +:+ line in
        if negb (String.prefix "</logentry>" line)
        then process_lines self log_entry xml'
        else
          let r := process_entry_text self log_entry in
          match raised r with
          | Some _ => r
          | None => then_run r (process_lines self "" xml')
          end
  end.

Definition process_log_entries (self : _SvnLogCollector) (xml : list string)
    : Run :=
  process_lines self "" xml.

End process_log_entries.

End svn.

(** ** pandas *)

Module pandas.

(** Group keys are tuples of strings, ordered as tuples. *)
Fixpoint key_leb (k1 k2 : list string) : bool :=
  match k1, k2 with
  | [], _ => true
  | _ :: _, [] => false
  | a :: k1', b :: k2' =>
      match String.compare a b with
      | Lt => true
      | Gt => false
      | Eq => key_leb k1' k2'
      end
  end.

Definition key_le (k1 k2 : list string) : Prop := key_leb k1 k2.

#[global] Instance key_le_dec : RelDecision key_le.
Proof. intros k1 k2. unfold key_le. apply _. Defined.

(** [drop_duplicates()]: the first of equal rows is kept. *)
Fixpoint drop_duplicates {A : Type} `{EqDecision A} (l : list A) : list A :=
  match l with
  | [] => []
  | x :: l' => x :: filter (λ y, y ≠ x) (drop_duplicates l')
  end.

Section groupby.
Context {A K : Type} `{EqDecision K} (R : relation K) `{!RelDecision R}.

(** The keys of [groupby(...)]: each once, sorted. *)
Definition group_keys (key : A → K) (l : list A) : list K :=
  merge_sort R (drop_duplicates (key <$> l)).

(** The rows of one group. *)
Definition group (key : A → K) (l : list A) (k : K) : list A :=
  filter (λ r, key r = k) l.

(** [groupby(...).count()] for a column without missing values. *)
Definition groupby_count (key : A → K) (l : list A) : list (K * nat) :=
  (λ k, (k, length (group key l k))) <$> group_keys key l.

End groupby.

(** [max()] of a group's dates. *)
Definition max_date (l : list Z) : Z :=
  match l with
  | [] => 0%Z
  | d :: l' => foldr Z.max d l'
  end.

End pandas.

(** ** Floats

    The quotients of [core.py] are Python floats (float64). A float is
    modelled by the rational it stands for; an operation gives the exact
    result rounded to 53 significant bits, to the nearest and to the even one
    of two that are as near. The range of the exponent is not modelled: the
    quotients of this file are far from both of its ends. *)

Module float64.

(** The integer nearest to [x], the even one of two that are as near. *)
Definition nearest_even (x : Q) : Z :=
  let n := Qnum x in
  let d := Zpos (Qden x) in
  let m := (n / d)%Z in
  match (2 * (n mod d) ?= d)%Z with
  | Lt => m
  | Gt => (m + 1)%Z
  | Eq => if Z.even m then m else (m + 1)%Z
  end.

(** The exponent of the last of the 53 bits of [q], for [0 < q]: the [e]
    with [2^52 <= q / 2^e < 2^53]. *)
Definition exponent (q : Q) : Z :=
  let e := (Z.log2 (Qnum q) - Z.log2 (Zpos (Qden q)))%Z in
  ((if Qle_bool (2 ^ e) q then e else e - 1) - 52)%Z.

Definition round_pos (q : Q) : Q :=
  let e := exponent q in
  (inject_Z (nearest_even (q * 2 ^ (- e))) * 2 ^ e)%Q.

Definition round (q : Q) : Q :=
  match Qnum q with
  | Z0 => 0%Q
  | Zpos _ => round_pos q
  | Zneg _ => (- round_pos (- q))%Q
  end.

(** The float of an integer ([int64] to [double]). *)
Definition of_int (z : Z) : Q := round (inject_Z z).

(** [x / y] on floats. *)
Definition div (x y : Q) : Q := round (x / y)%Q.

End float64.

(** ** core.py *)

Module core.
Import scm pandas.

(** A column of the log whose cells are strings, given by its reader. *)
Definition Column : Type := LogEntry → string.

(** *** get_mass_change_sets *)

Record MassChange : Type := mkMassChange {
  mc_revision : string;
  path_count : nat;
  mc_message : option string;
  mc_author : option string;
}.

(** [log[['revision', 'path']].groupby('revision').count()]: [path] has no
    missing value, so the count is the number of rows of the revision. *)
Definition count_by_revision (log : list LogEntry) : list (string * nat) :=
  groupby_count String.le revision log.

(** [pd.merge(left, right)] on the one column the frames share, [revision]:
    for every left row, in order, its matches in the right frame, in order. *)
Definition merge_on_revision (left : list (string * nat))
    (right : list (string * option string * option string)) : list MassChange :=
  '(rev, n) ← left;
  '(_, msg, auth) ← filter (λ t, t.1.1 = rev) right;
  [mkMassChange rev n msg auth].

Definition massive (by_rev : list (string * nat)) (log : list LogEntry)
    (min_changes : Z) : list MassChange :=
  merge_on_revision
    (filter (λ rc, (min_changes < Z.of_nat rc.2)%Z) by_rev)
    (drop_duplicates ((λ e, (revision e, message e, author e)) <$> log)).

Definition get_mass_change_sets (log : list LogEntry) (min_changes : Z)
    : list MassChange :=
  let by_rev := count_by_revision log in
  massive by_rev log min_changes.

(** The number of distinct paths of a revision in the log, in the words of
    the specification. *)
Definition distinct_paths (log : list LogEntry) (rev : string) : nat :=
  length (drop_duplicates (path <$> filter (λ e, revision e = rev) log)).

(** *** get_ages *)

Record Age : Type := mkAge {
  age_key : list string;
  age : Q;
}.

(** [pd.Timedelta(1, unit='D')], in nanoseconds. *)
Definition day : Z := 86400000000000.

(** The key of a row under [groupby(by)]. *)
Definition key_of (by_ : list Column) (e : LogEntry) : list string :=
  (λ c : Column, c e) <$> by_.

(** [data.groupby(by)['date'].max().reset_index()]. *)
Definition max_dates (data : list LogEntry) (by_ : list Column)
    : result (list (list string * Z)) :=
  match by_ with
  | [] => Raise (ValueError "No group keys passed!")
  | _ :: _ =>
      Ok ((λ k, (k, max_date (date <$> group (key_of by_) data k)))
            <$> group_keys key_le (key_of by_) data)
  end.

(** [rv['age'] = now - rv['date']]: a column of time differences. *)
Definition set_age (now : Z) (rv : list (list string * Z))
    : list (list string * Z * Z) :=
  (λ kd, (kd.1, kd.2, (now - kd.2)%Z)) <$> rv.

(** [rv['age'] /= pd.Timedelta(1, unit='D')]: the nanoseconds of the
    difference and of the day are made floats and divided. *)
Definition age_in_days (rv : list (list string * Z * Z))
    : list (list string * Z * Q) :=
  (λ kda, (kda.1.1, kda.1.2,
           float64.div (float64.of_int kda.2) (float64.of_int day))) <$> rv.

(** [rv.drop(columns=['date'])]. *)
Definition drop_date (rv : list (list string * Z * Q)) : list Age :=
  (λ kda, mkAge kda.1.1 kda.2) <$> rv.

(** [now] is what [internals.get_now()] returns, read once. *)
Definition get_ages (now : Z) (data : list LogEntry)
    (by_ : option (list Column)) : result (list Age) :=
  let by_ := default [path] by_ in
  rv ← max_dates data by_;
  mret (drop_date (age_in_days (set_age now rv))).

(** *** get_hot_spots *)

(** A row of the cloc report. *)
Record LocRow : Type := mkLocRow {
  language : string;
  loc_path : string;
  blank : Z;
  comment : Z;
  code : Z;
}.

(** A cell of the result: [fillna(0.0)] puts a number in any column. *)
Inductive Cell : Type :=
  | Str (s : string)
  | Num (x : Z).

(** A row of the result. [hs_loc] is the row of [loc] it comes from; it is
    [None] where the key is in the log only, and every column of [loc] but
    the key then holds [0.0]. *)
Record HotSpot : Type := mkHotSpot {
  hs_key : string;
  hs_loc : option LocRow;
  hs_changes : Z;
}.

Definition hs_language (r : HotSpot) : Cell :=
  from_option (Str ∘ language) (Num 0) (hs_loc r).
Definition lines (r : HotSpot) : Z := from_option code 0%Z (hs_loc r).
Definition hs_blank (r : HotSpot) : Z := from_option blank 0%Z (hs_loc r).
Definition hs_comment (r : HotSpot) : Z := from_option comment 0%Z (hs_loc r).

(** [value_counts()] of a column: how often each value occurs. The order of
    the counts is not kept by the merge that follows. *)
Definition value_counts (l : list string) : list (string * nat) :=
  (λ v, (v, length (filter (λ x, x = v) l))) <$> drop_duplicates l.

(** [log[columns].drop_duplicates()[by]], [by] being the last of
    [columns]. *)
Definition changed (log : list LogEntry) (columns : list Column)
    : list string :=
  (λ row, List.last row "") <$> drop_duplicates (key_of columns <$> log).

(** [....value_counts().to_frame('changes')]. *)
Definition change_counts (log : list LogEntry) (columns : list Column)
    : list (string * nat) :=
  value_counts (changed log columns).

Definition lookup_count (counts : list (string * nat)) (k : string) : option nat :=
  snd <$> List.find (λ c, bool_decide (c.1 = k)) counts.

(** [pd.merge(c_df, ch_df, right_index=True, left_on=by, how='outer')]
    followed by [fillna(0.0)]: for each key of either frame, the rows of
    [c_df] with that key, else one row for the key of [ch_df]. The keys are
    sorted here, as the documentation of pandas has an outer merge; the
    versions of pandas that keep the keys of [c_df] in their order and put
    the other keys after them give the same rows in another order, and
    nothing below is said about the order of these rows. *)
Definition merge_outer_fillna (by_loc : LocRow → string) (c_df : list LocRow)
    (ch_df : list (string * nat)) : list HotSpot :=
  k ← merge_sort String.le (drop_duplicates ((by_loc <$> c_df) ++ ch_df.*1));
  let n := from_option Z.of_nat 0%Z (lookup_count ch_df k) in
  match group by_loc c_df k with
  | [] => [mkHotSpot k None n]
  | rows => (λ l, mkHotSpot k (Some l) n) <$> rows
  end.

(** [by_] is the argument [by]; it names a column of both frames: a reader
    for each. *)
Definition get_hot_spots (log : list LogEntry) (loc : list LocRow)
    (by_ : option (Column * (LocRow → string)))
    (count_one_change_per : option (list Column)) : list HotSpot :=
  let by_ := default (path, loc_path) by_ in
  let count_one_change_per := default [revision] count_one_change_per in
  let c_df := loc in
  let columns := count_one_change_per ++ [by_.1] in
  let ch_df := change_counts log columns in
  merge_outer_fillna by_.2 c_df ch_df.

(** *** get_co_changes *)

Record CoChange : Type := mkCoChange {
  primary : string;
  dependency : string;
  changes : nat;
  cochanges : nat;
  coupling : Q;
}.

(** The order of [sort_values(by='coupling', ascending=False)]. *)
Definition coupling_ge (x y : CoChange) : Prop :=
  Qle_bool (coupling y) (coupling x).

#[global] Instance coupling_ge_dec : RelDecision coupling_ge.
Proof. intros x y. unfold coupling_ge. apply _. Defined.

(** [log[[on, by]].drop_duplicates()]. *)
Definition pairs (log : list LogEntry) (by_ on : Column)
    : list (string * string) :=
  drop_duplicates ((λ e, (on e, by_ e)) <$> log).

(** [pd.merge(df, df, on=on)]: the pairs of rows with the same [on]. *)
Definition self_join (df : list (string * string))
    : list (string * string * string) :=
  '(o, p) ← df;
  '(_, q) ← filter (λ r, r.1 = o) df;
  [(o, p, q)].

(** The rows of the self-join that come from one row of [df]. *)
Definition joined_with (df : list (string * string)) (x : string * string)
    : list (string * string * string) :=
  (λ r, (x.1, x.2, r.2)) <$> filter (λ r, r.1 = x.1) df.

(** The key of [groupby([by, 'dependency'])]. *)
Definition pair_key (t : string * string * string) : list string :=
  [t.1.2; t.2].

(** [sj]: the self-join grouped by [[by, 'dependency']] and counted. *)
Definition pair_counts (df : list (string * string))
    : list (string * string * nat) :=
  (λ g, (List.nth 0 g.1 "", List.nth 1 g.1 "", g.2))
    <$> groupby_count key_le pair_key (self_join df).

(** The merge of the self pairs with the other pairs on [by], its counts
    renamed to [changes] and [cochanges]. *)
Definition joined (sj : list (string * string * nat))
    : list (string * nat * string * nat) :=
  '(p, _, n) ← filter (λ g, g.1.1 = g.1.2) sj;
  '(_, q, c) ← filter (λ g, g.1.1 = p) (filter (λ g, g.1.1 ≠ g.1.2) sj);
  [(p, n, q, c)].

(** [result['coupling'] = result['cochanges'] / result['changes']]. The
    quotient is exact here, where pandas rounds it to a float. *)
Definition set_coupling (result : list (string * nat * string * nat))
    : list CoChange :=
  (λ r, mkCoChange r.1.1.1 r.1.2 r.1.1.2 r.2
          (inject_Z (Z.of_nat r.2) / inject_Z (Z.of_nat r.1.1.2))%Q)
    <$> result.

(** [....sort_values(by='coupling', ascending=False)]. pandas does not say
    how it orders rows of equal coupling (its default sort is not stable);
    the sort here keeps them as they were, and nothing below is said about
    their order. *)
Definition sort_by_coupling (result : list CoChange) : list CoChange :=
  merge_sort coupling_ge result.

Definition get_co_changes (log : list LogEntry) (by_ on : option Column)
    : list CoChange :=
  let by_ := default path by_ in
  let on := default revision on in
  let df := pairs log by_ on in
  let sj := pair_counts df in
  let result := joined sj in
  sort_by_coupling (set_coupling result).

(** *** guess_components: the name of a cluster *)

(** The order of [sort_values(by=['weight', 'feature'], ascending=False)]:
    [x] comes before [y]. Weights are the values of the floats. *)
Definition weight_feature_geb (x y : string * Q) : bool :=
  negb (Qle_bool x.2 y.2) || (Qeq_bool y.2 x.2 && String.leb y.1 x.1).

Definition weight_feature_ge (x y : string * Q) : Prop :=
  weight_feature_geb x y.

#[global] Instance weight_feature_ge_dec : RelDecision weight_feature_ge.
Proof. intros x y. unfold weight_feature_ge. apply _. Defined.

(** [__cluster_name]; [features] is [vectorizer.get_feature_names()]. The
    frame cannot be built from columns of different lengths (the text of the
    message depends on the version of pandas). *)
Definition __cluster_name (features : list string) (center : list Q)
    (threshold : Q) : result string :=
  if negb (length features =? length center)
  then Raise (ValueError "All arrays must be of the same length")
  else
    let df := merge_sort weight_feature_ge (zip features center) in
    if forallb (λ fw, Qle_bool fw.2 threshold) df then Ok ""
    else
      let df := filter (λ fw, negb (Qle_bool fw.2 threshold)) df in
      Ok (String.concat "." df.*1).

(** The threshold [guess_components] passes: the float [0.4]. *)
Definition threshold_0_4 : Q := 3602879701896397 # 9007199254740992.

(** *** get_complexity *)

Section get_complexity.

(** The Python values in the cells of the frame. *)
Variable Value : Type.

(** [_lizard_fields]: the attributes of a [lizard.FunctionInfo] but
    [filename] and [parameters]. *)
Variable _lizard_fields : list string.

(** What [lizard] gives for a file: [vars(d)] for every function, and the
    counts of the file. *)
Record FileInformation : Type := {
  function_list : list (gmap string Value);
  token_count : Value;
  nloc : Value;
}.

Variable analyze_source_code : option string → string → FileInformation.

(** Modelled from the spec: [scm.DownloadResult], which [scm.py] does not
    declare: revision, path (nullable) and content. *)
Record DownloadResult : Type := {
  dl_revision : string;
  dl_path : option string;
  dl_content : string;
}.

(** The rows of a group, (path, revision). *)
Variable download_func : list (string * string) → DownloadResult.

(** A frame: its columns, the name of its index, and the cells of its rows
    ([None] is a missing value). *)
Record DataFrame : Type := mkDataFrame {
  columns : list string;
  index_name : option string;
  data : list (list (option Value));
}.

Definition _complexity_fields : list string :=
  _lizard_fields ++ ["file_tokens"; "file_nloc"].

(** [pd.DataFrame.from_records(records, columns=columns)]. *)
Definition from_records (records : list (gmap string Value))
    (cols : list string) : DataFrame :=
  mkDataFrame cols None ((λ d, (λ c, d !! c) <$> cols) <$> records).

(** [df[c] = v] for a scalar [v]: the column is set where it exists and
    added as the last one otherwise. *)
Definition setitem (c : string) (v : Value) (df : DataFrame) : DataFrame :=
  match list_find (λ x, x = c) (columns df) with
  | Some (i, _) =>
      mkDataFrame (columns df) (index_name df)
                  ((λ row, <[i := Some v]> row) <$> data df)
  | None =>
      mkDataFrame (columns df ++ [c]) (index_name df)
                  ((λ row, row ++ [Some v]) <$> data df)
  end.

Definition rename_axis (name : string) (df : DataFrame) : DataFrame :=
  mkDataFrame (columns df) (Some name) (data df).

(** [get_complexity]. The keys of the dict [{k: [] for k in
    _complexity_fields}] are the fields, each once. *)
Definition get_complexity (group : list (string * string)) : DataFrame :=
  if length group =? 0
  then mkDataFrame (drop_duplicates _complexity_fields) None []
  else
    let download := download_func group in
    let path := dl_path download in
    let content := dl_content download in
    let info := analyze_source_code path content in
    let df := mkDataFrame _lizard_fields None [] in
    let df :=
      match function_list info with
      | [] => df
      | _ :: _ => from_records (function_list info) _lizard_fields
      end in
    let df := setitem "file_tokens" (token_count info) df in
    let df := setitem "file_nloc" (nloc info) df in
    rename_axis "function" df.

End get_complexity.

Arguments Build_FileInformation {Value}.
Arguments function_list {Value}.
Arguments token_count {Value}.
Arguments nloc {Value}.
Arguments mkDataFrame {Value}.
Arguments columns {Value}.
Arguments index_name {Value}.
Arguments data {Value}.
Arguments from_records {Value}.
Arguments setitem {Value}.
Arguments rename_axis {Value}.
Arguments get_complexity {Value}.

End core.

(** ** The frames as objects

    The four functions again, as programs over a store of frames: which
    objects they create, read and change in place. A reference is the
    position of the object in the store. The data of each step is computed by
    the functions of [core]. *)

Module objects.
Import scm pandas.

Inductive Frame : Type :=
  | Log (rows : list LogEntry)
  | Loc (code_column : string) (rows : list core.LocRow)
  | ByRev (index : option string) (count_column : string)
          (rows : list (string * nat))
  | MassChanges (rows : list core.MassChange)
  | MaxDates (rows : list (list string * Z))
  | AgeDeltas (rows : list (list string * Z * Z))
  | AgeDays (rows : list (list string * Z * Q))
  | Ages (rows : list core.Age)
  | Changes (rows : list (string * nat))
  | HotSpots (rows : list core.HotSpot)
  | Pairs (rows : list (string * string))
  | PairCounts (rows : list (string * string * nat))
  | Joined (rows : list (string * nat * string * nat))
  | CoChanges (rows : list core.CoChange).

Abbreviation Store := (list Frame).

(** A computation reads and changes the store and returns or raises. *)
Definition M (A : Type) : Type := Store → result A * Store.

#[global] Instance M_ret : MRet M := λ A a h, (Ok a, h).
#[global] Instance M_bind : MBind M := λ A B k m h,
  match m h with
  | (Ok a, h') => k a h'
  | (Raise e, h') => (Raise e, h')
  end.

Definition raise {A} (e : PyExc) : M A := λ h, (Raise e, h).

(** A new object. *)
Definition new (f : Frame) : M nat := λ h, (Ok (length h), h ++ [f]).

(** The object behind a reference. A program holds only references it was
    given or has created. *)
Definition get (l : nat) : M Frame := λ h,
  match h !! l with
  | Some f => (Ok f, h)
  | None => (Raise (KeyError "no such object"), h)
  end.

(** A change in place. *)
Definition update (l : nat) (op : Frame → Frame) : M unit := λ h,
  (Ok (), alter op l h).

(** Reading a frame as the table the caller expects; another frame lacks
    the columns. *)
Definition get_log (l : nat) : M (list LogEntry) :=
  f ← get l;
  match f with Log rows => mret rows | _ => raise (KeyError "'revision'") end.

Definition get_loc (l : nat) : M (list core.LocRow) :=
  f ← get l;
  match f with Loc _ rows => mret rows | _ => raise (KeyError "'code'") end.

(** [rename(columns={old: new})]. *)
Definition rename (old new : string) (f : Frame) : Frame :=
  match f with
  | ByRev i c rows => ByRev i (if decide (c = old) then new else c) rows
  | Loc c rows => Loc (if decide (c = old) then new else c) rows
  | _ => f
  end.

(** [reset_index()]. *)
Definition reset_index (f : Frame) : Frame :=
  match f with
  | ByRev _ c rows => ByRev None c rows
  | _ => f
  end.

(** [rv['age'] = now - rv['date']]. *)
Definition setitem_age (now : Z) (f : Frame) : Frame :=
  match f with
  | MaxDates rows => AgeDeltas (core.set_age now rows)
  | _ => f
  end.

(** [rv['age'] /= pd.Timedelta(1, unit='D')]. *)
Definition idiv_age (f : Frame) : Frame :=
  match f with
  | AgeDeltas rows => AgeDays (core.age_in_days rows)
  | _ => f
  end.

(** [result['coupling'] = result['cochanges'] / result['changes']]. *)
Definition setitem_coupling (f : Frame) : Frame :=
  match f with
  | Joined rows => CoChanges (core.set_coupling rows)
  | _ => f
  end.

Definition get_mass_change_sets (log : nat) (min_changes : Z) : M nat :=
  rows ← get_log log;
  by_rev ← new (ByRev (Some "revision") "path" (core.count_by_revision rows));
  update by_rev (rename "path" "path_count");;
  update by_rev reset_index;;
  counts ← get by_rev;
  rows ← get_log log;
  match counts with
  | ByRev _ _ counts => new (MassChanges (core.massive counts rows min_changes))
  | _ => raise (KeyError "'path_count'")
  end.

Definition get_ages (now : Z) (data : nat) (by_ : option (list core.Column))
    : M nat :=
  let by_ := default [path] by_ in
  rows ← get_log data;
  match core.max_dates rows by_ with
  | Raise e => raise e
  | Ok dates =>
      rv ← new (MaxDates dates);
      update rv (setitem_age now);;
      update rv idiv_age;;
      f ← get rv;
      match f with
      | AgeDays rows => new (Ages (core.drop_date rows))
      | _ => raise (KeyError "['date'] not found in axis")
      end
  end.

Definition get_hot_spots (log loc : nat)
    (by_ : option (core.Column * (core.LocRow → string)))
    (count_one_change_per : option (list core.Column)) : M nat :=
  let by_ := default (path, core.loc_path) by_ in
  let count_one_change_per := default [revision] count_one_change_per in
  f ← get loc;
  c_df ← new f;
  f ← get c_df;
  c_df ← new (rename "code" "lines" f);
  let columns := count_one_change_per ++ [by_.1] in
  rows ← get_log log;
  ch_df ← new (Changes (core.change_counts rows columns));
  c ← get_loc c_df;
  ch ← get ch_df;
  match ch with
  | Changes ch => new (HotSpots (core.merge_outer_fillna by_.2 c ch))
  | _ => raise (KeyError "'changes'")
  end.

Definition get_co_changes (log : nat) (by_ on : option core.Column) : M nat :=
  let by_ := default path by_ in
  let on := default revision on in
  rows ← get_log log;
  df ← new (Pairs (core.pairs rows by_ on));
  f ← get df;
  match f with
  | Pairs d =>
      sj ← new (PairCounts (core.pair_counts d));
      f ← get sj;
      match f with
      | PairCounts s =>
          result ← new (Joined (core.joined s));
          update result setitem_coupling;;
          f ← get result;
          match f with
          | CoChanges r => new (CoChanges (core.sort_by_coupling r))
          | _ => raise (KeyError "'coupling'")
          end
      | _ => raise (KeyError "'dependency'")
      end
  | _ => raise (KeyError "'revision'")
  end.

(** [h'] keeps every object of [h] as it is. *)
Definition unchanged (h h' : Store) : Prop :=
  ∀ l f, h !! l = Some f → h' !! l = Some f.

(** A run from [h] returns a reference to a new object, the frame [f], and
    keeps every object of [h] as it is. *)
Definition returns_new (h : Store) (run : result nat * Store) (f : Frame)
    : Prop :=
  ∃ out, run.1 = Ok out ∧ h !! out = None ∧ run.2 !! out = Some f ∧
         unchanged h run.2.

End objects.

(** ** Inputs of the examples *)

Module examples.
Import scm.

(** dateutil stands aside: every date text is the epoch. *)
Definition to_date0 (datestr : string) : result Z := Ok 0%Z.

Definition collector : svn._SvnLogCollector :=
  {| svn.svn_client := "svn"; svn.self_path := "."; svn.relative_url := Some "/trunk" |}.

Definition date_elem : ET.Element :=
  ET.mkElement "date" ∅ (Some "2019-01-01T00:00:00.000000Z") [].

Definition path_elem (attrs : gmap string string) (text : option string)
    : ET.Element :=
  ET.mkElement "path" attrs text [].

Definition logentry (children : list ET.Element) : ET.Element :=
  ET.mkElement "logentry" {[ "revision" := "1" ]} None children.

Definition all_attrs : gmap string string :=
  {[ "text-mods" := "true"; "kind" := "file"; "action" := "M";
     "prop-mods" := "false" ]}.

(** A path element without text, followed by a regular one. *)
Definition entry_without_path_text : ET.Element :=
  logentry [date_elem;
            ET.mkElement "paths" ∅ None
              [path_elem all_attrs None;
               path_elem all_attrs (Some "/trunk/b.py")]].

(** A path element without [prop-mods], as older servers send it. *)
Definition entry_without_propmods : ET.Element :=
  logentry [date_elem;
            ET.mkElement "paths" ∅ None
              [path_elem {[ "text-mods" := "true"; "kind" := "file";
                            "action" := "M" ]} (Some "/trunk/a.py")]].

(** An entry without date, with a path. *)
Definition entry_without_date : ET.Element :=
  logentry [ET.mkElement "paths" ∅ None
              [path_elem all_attrs (Some "/trunk/a.py")]].

(** An entry with nothing but its revision. *)
Definition bare_entry : ET.Element := logentry [].

Definition regular_entry : ET.Element :=
  logentry [date_elem;
            ET.mkElement "paths" ∅ None
              [path_elem all_attrs (Some "/trunk/a.py")]].

(** The log of the scenario: revision 1 touches a, b and c, revision 2
    touches a and b, revision 3 touches c; revision n is dated day n. *)
Definition entry (rev : string) (n : Z) (p : string) : LogEntry :=
  mkLogEntry rev (Some "alice") (n * core.day) true (PyStr "file") (PyStr "M")
             false p (Some ("change " +:+ rev)) None None.

Definition scenario : list LogEntry :=
  [entry "1" 1 "a"; entry "1" 1 "b"; entry "1" 1 "c";
   entry "2" 2 "a"; entry "2" 2 "b"; entry "3" 3 "c"].

(** Revision 1 with a message for each of its two rows. *)
Definition two_messages : list LogEntry :=
  [mkLogEntry "1" (Some "alice") 0 true (PyStr "file") (PyStr "M") false "a"
              (Some "first") None None;
   mkLogEntry "1" (Some "alice") 0 true (PyStr "file") (PyStr "M") false "b"
              (Some "second") None None].

(** Revision 1 with its one path logged twice. *)
Definition logged_twice : list LogEntry :=
  [entry "1" 1 "a"; entry "1" 1 "a"].

(** A cloc report: a is in the log, z is not. *)
Definition loc_report : list core.LocRow :=
  [core.mkLocRow "Python" "a" 10 20 30; core.mkLocRow "C" "z" 4 5 60].

(** A parser that finds the regular entry in every text. *)
Definition fromstring0 (log_entry : string) : result ET.Element :=
  Ok regular_entry.

(** Output of [svn info], the relative URL printed with a final slash. *)
Definition svn_info : string :=
  "Path: ." +:+ String LF "Relative URL: ^/trunk/"
            +:+ String LF "Revision: 3".

(** Output of a client that prints no relative URL. *)
Definition svn_info_old : string :=
  "Path: ." +:+ String LF "URL: http://host/repo/trunk".

(** A log entry over four lines, after a header and before other text. *)
Definition log_lines : list string :=
  ["<?xml version=1.0?>"; "<log>"; "<logentry"; "   revision=1>";
   "<date>2019</date>"; "</logentry>"; "</log>"].

(** The features of three directories and the centre of a cluster. *)
Definition features : list string := ["lib"; "src"; "test"].
Definition center : list Q := [1 # 2; 9 # 10; 1 # 10].

(** Two of the fields of a function, and a file with one function. *)
Definition lizard_fields : list string := ["name"; "nloc"].

Definition analyze0 (path : option string) (content : string)
    : core.FileInformation string :=
  core.Build_FileInformation [ {[ "name" := "main"; "nloc" := "2" ]} ] "10" "3".

(** A file without functions. *)
Definition analyze_empty (path : option string) (content : string)
    : core.FileInformation string :=
  core.Build_FileInformation [] "10" "3".

Definition download0 (group : list (string * string)) : core.DownloadResult :=
  core.Build_DownloadResult "1" (Some "a.py") "int main() { return 0; }".

End examples.

(** * Properties *)

(** C4. For every string: lowercased in ("true","1","t") gives True,
    lowercased in ("false","0","f","") gives False, anything else raises the
    ValueError that quotes the offending string; "T", "True" and "TRUE" give
    True and "no" raises. *)
Theorem to_bool_spec (s : string) :
  (lower s ∈ ["true"; "1"; "t"] → svn.to_bool (PyStr s) = Ok true) ∧
  (lower s ∈ ["false"; "0"; "f"; ""] → svn.to_bool (PyStr s) = Ok false) ∧
  (lower s ∉ (["true"; "1"; "t"] ++ ["false"; "0"; "f"; ""]) →
     svn.to_bool (PyStr s)
     = Raise (ValueError ("cannot interpret " +:+ s +:+ " as a bool"))) ∧
  svn.to_bool (PyStr "T") = Ok true ∧
  svn.to_bool (PyStr "True") = Ok true ∧
  svn.to_bool (PyStr "TRUE") = Ok true ∧
  svn.to_bool (PyStr "no") = Raise (ValueError "cannot interpret no as a bool").
Proof.
  unfold svn.to_bool. repeat split; try reflexivity.
  - intros H. by rewrite bool_decide_eq_true_2.
  - intros H. rewrite bool_decide_eq_false_2, bool_decide_eq_true_2; [done..|].
    intros Ht. set_unfold.
    destruct H as [H|[H|[H|[H|[]]]]], Ht as [Ht|[Ht|[Ht|[]]]];
      rewrite H in Ht; discriminate Ht.
  - intros H. rewrite !bool_decide_eq_false_2; [done|..].
    all: intros Hin; apply H; set_unfold; tauto.
Qed.

Lemma to_bool_spec_witness :
  lower "T" ∈ ["true"; "1"; "t"] ∧ svn.to_bool (PyStr "T") = Ok true.
Proof.
  assert (H : lower "T" ∈ ["true"; "1"; "t"]) by (vm_compute; set_solver).
  split; [exact H | exact (proj1 (to_bool_spec "T") H)].
Defined.

(** ** process_entry *)

Section process_entry_facts.
Import svn.
Variable to_date : string → result Z.

(** The [except] clause around the path text is never entered: the one
    exception its [try] can raise is the AssertionError, which it does not
    list. *)
Lemma try_path_no_warning rev url pe path w :
  try_path rev url pe = Ok (path, w) → w = [] ∧ is_Some (ET.text pe).
Proof.
  unfold try_path, path_text. destruct (ET.text pe); [|discriminate].
  intros [= <- <-]. eauto.
Qed.

(** The call of [scm.LogEntry] in [process_entry] names [copyfromrev],
    which is no field of the tuple. *)
Lemma LogEntry_new_keywords (entry : scm.LogEntry) :
  scm.LogEntry_new keywords entry
  = Raise (TypeError "__new__() got an unexpected keyword argument 'copyfromrev'").
Proof. reflexivity. Qed.

(** No entry is ever made. *)
Lemma make_entry_raises rev author date message path pe :
  ∃ err, make_entry to_date rev author date message path pe = Raise err.
Proof.
  unfold make_entry. destruct date as [d|]; [|eauto].
  destruct (to_date d); simpl; [|eauto].
  destruct (to_bool (other pe "text-mods")); simpl; [|eauto].
  destruct (to_bool (other pe "prop-mods")); simpl; [|eauto].
  rewrite LogEntry_new_keywords. eauto.
Qed.

Lemma process_paths_warnings rev author date message url elems :
  warnings (process_paths to_date rev author date message url elems) = [].
Proof.
  induction elems as [|pe elems IH]; simpl; [done|].
  destruct (try_path rev url pe) as [[path w]|err] eqn:Hp; [|done].
  apply try_path_no_warning in Hp as [-> _].
  destruct (make_entry _ _ _ _ _ _ _); simpl; [apply IH | done].
Qed.

Lemma process_paths_yielded rev author date message url elems :
  yielded (process_paths to_date rev author date message url elems) = [].
Proof.
  destruct elems as [|pe elems]; simpl; [done|].
  destruct (try_path rev url pe) as [[path w]|err]; [|done].
  by destruct (make_entry_raises rev author date message path pe) as [err ->].
Qed.

Lemma process_paths_raised rev author date message url elems :
  raised (process_paths to_date rev author date message url elems) = None
  ↔ elems = [].
Proof.
  destruct elems as [|pe elems]; simpl; [done|].
  destruct (try_path rev url pe) as [[path w]|err]; [|done].
  by destruct (make_entry_raises rev author date message path pe) as [err ->].
Qed.

(** The loop ends at the first element whose entry cannot be built. *)
Lemma process_paths_stops rev author date message url elems i pe :
  elems !! i = Some pe →
  (∀ path w, try_path rev url pe = Ok (path, w) →
     ∃ err, make_entry to_date rev author date message path pe = Raise err) →
  let r := process_paths to_date rev author date message url elems in
  is_Some (raised r) ∧ length (yielded r) ≤ i.
Proof.
  revert i. induction elems as [|pe' elems IH]; intros i Hi Hpe; [done|].
  destruct i as [|i]; simpl in Hi.
  - injection Hi as ->. simpl.
    destruct (try_path rev url pe) as [[path w]|err] eqn:Hp; simpl; [|eauto].
    destruct (Hpe _ _ eq_refl) as [err ->]. simpl. eauto.
  - simpl. destruct (try_path rev url pe') as [[path w]|err]; simpl;
      [|split; [eauto | lia]].
    destruct (make_entry _ _ _ _ _ _ _); simpl; [|split; [eauto | lia]].
    destruct (IH i Hi Hpe) as [? ?]. split; [done | lia].
Qed.

(** Without a date the first path element that has a text ends the loop
    on the assertion. *)
Lemma process_paths_no_date rev author message url pe elems :
  is_Some (ET.text pe) →
  process_paths to_date rev author None message url (pe :: elems)
  = mkRun [] [] (Some (AssertionError "expected datetime got None")).
Proof. intros [txt Ht]. simpl. unfold try_path, path_text. by rewrite Ht. Qed.

Lemma process_entry_stops self elem i pe :
  ET.findall_in_children elem "path" !! i = Some pe →
  (∀ rev author date message url path w,
     try_path rev url pe = Ok (path, w) →
     ∃ err, make_entry to_date rev author date message path pe = Raise err) →
  let r := process_entry to_date self elem in
  is_Some (raised r) ∧ length (yielded r) ≤ i.
Proof.
  intros Hi Hpe. unfold process_entry.
  destruct (ET.attrib elem !! "revision"); simpl; [|split; [eauto | lia]].
  destruct (relative_url self); simpl; [|split; [eauto | lia]].
  eapply process_paths_stops; [done|]. intros path w. apply Hpe.
Qed.

End process_entry_facts.

(** C5. A path sub-element without text ends the run of [process_entry]:
    no entry is yielded for it or for the elements after it, no warning is
    logged, and the exception is the AssertionError of the [assert] inside
    the [try], which the [except] clause does not list. *)
Theorem process_entry_path_without_text
    (to_date : string → result Z) (self : svn._SvnLogCollector)
    (elem : ET.Element) (i : nat) (pe : ET.Element) :
  ET.findall_in_children elem "path" !! i = Some pe →
  ET.text pe = None →
  let r := svn.process_entry to_date self elem in
  is_Some (svn.raised r) ∧ length (svn.yielded r) ≤ i ∧ svn.warnings r = [] ∧
  ∀ rev url, svn.try_path rev url pe = Raise (AssertionError "").
Proof.
  intros Hi Ht. repeat split.
  - eapply process_entry_stops; [done|]. intros ??????? Hp.
    apply try_path_no_warning in Hp as [_ [? ?]]. congruence.
  - eapply process_entry_stops; [done|]. intros ??????? Hp.
    apply try_path_no_warning in Hp as [_ [? ?]]. congruence.
  - unfold svn.process_entry. repeat case_match; try done.
    apply process_paths_warnings.
  - intros rev url. unfold svn.try_path, svn.path_text. by rewrite Ht.
Qed.

Lemma process_entry_path_without_text_witness :
  let r := svn.process_entry examples.to_date0 examples.collector
                             examples.entry_without_path_text in
  svn.yielded r = [] ∧ svn.warnings r = [] ∧
  svn.raised r = Some (AssertionError "") ∧
  is_Some (svn.raised r) ∧ length (svn.yielded r) ≤ 0.
Proof.
  pose proof (process_entry_path_without_text examples.to_date0
    examples.collector examples.entry_without_path_text 0
    (examples.path_elem examples.all_attrs None) eq_refl eq_refl) as H.
  split; [reflexivity|]. split; [reflexivity|]. split; [reflexivity|].
  split; [exact (proj1 H) | exact (proj1 (proj2 H))].
Defined.

(** C6. The date of an entry is checked only by the assertion inside the
    loop over its path sub-elements: [_extract] returns [None] for a missing
    sub-element whatever [on_error] says. An entry without date and without
    path sub-elements (its revision and the relative URL being there) is
    therefore processed to the end, and no error is propagated; with a first
    path sub-element that has a text the run ends on the assertion. Nothing
    is yielded either way. *)
Theorem process_entry_without_date
    (to_date : string → result Z) (self : svn._SvnLogCollector)
    (elem : ET.Element) :
  ET.find elem "date" = None →
  is_Some (ET.attrib elem !! "revision") →
  is_Some (svn.relative_url self) →
  let r := svn.process_entry to_date self elem in
  svn._extract elem "date" (Some "raise") = None ∧
  svn.yielded r = [] ∧
  (ET.findall_in_children elem "path" = [] → r = svn.mkRun [] [] None) ∧
  (∀ pe rest, ET.findall_in_children elem "path" = pe :: rest →
     is_Some (ET.text pe) →
     r = svn.mkRun [] []
           (Some (AssertionError "expected datetime got None"))).
Proof.
  intros Hd [rev Hrev] [url Hurl]. cbv zeta.
  assert (He : svn._extract elem "date" (Some "raise") = None)
    by (unfold svn._extract; by rewrite Hd).
  unfold svn.process_entry. rewrite Hrev, Hurl, He.
  split; [done|]. split; [apply process_paths_yielded|]. split.
  - by intros ->.
  - intros pe rest -> Ht. by apply process_paths_no_date.
Qed.

Lemma process_entry_without_date_witness :
  ET.find examples.bare_entry "date" = None ∧
  svn.process_entry examples.to_date0 examples.collector examples.bare_entry
  = svn.mkRun [] [] None.
Proof.
  split; [reflexivity|].
  exact (proj1 (proj2 (proj2 (process_entry_without_date examples.to_date0
           examples.collector examples.bare_entry eq_refl
           ltac:(vm_compute; eauto) ltac:(vm_compute; eauto)))) eq_refl).
Defined.

(** C7. A path sub-element without the [prop-mods] attribute ends the run of
    [process_entry] with an exception: [np.nan] stands for the attribute and
    [to_bool] cannot lower it. No entry is yielded for that element or for
    those after it. *)
Theorem process_entry_without_propmods
    (to_date : string → result Z) (self : svn._SvnLogCollector)
    (elem : ET.Element) (i : nat) (pe : ET.Element) :
  ET.findall_in_children elem "path" !! i = Some pe →
  ET.attrib pe !! "prop-mods" = None →
  let r := svn.process_entry to_date self elem in
  is_Some (svn.raised r) ∧ length (svn.yielded r) ≤ i ∧
  svn.to_bool (svn.other pe "prop-mods")
  = Raise (AttributeError "'float' object has no attribute 'lower'").
Proof.
  intros Hi Hp.
  assert (Hb : svn.to_bool (svn.other pe "prop-mods")
    = Raise (AttributeError "'float' object has no attribute 'lower'")).
  { unfold svn.other. by rewrite Hp. }
  assert (Hs : let r := svn.process_entry to_date self elem in
               is_Some (svn.raised r) ∧ length (svn.yielded r) ≤ i).
  { eapply process_entry_stops; [done|]. intros rev author date message url path w _.
    unfold svn.make_entry. destruct date as [d|]; [|eauto].
    destruct (to_date d); simpl; [|eauto].
    destruct (svn.to_bool (svn.other pe "text-mods")); simpl; [|eauto].
    rewrite Hb. simpl. eauto. }
  destruct Hs as [? ?]. done.
Qed.

Lemma process_entry_without_propmods_witness :
  let r := svn.process_entry examples.to_date0 examples.collector
                             examples.entry_without_propmods in
  svn.yielded r = [] ∧
  svn.raised r
  = Some (AttributeError "'float' object has no attribute 'lower'") ∧
  is_Some (svn.raised r) ∧ length (svn.yielded r) ≤ 0.
Proof.
  pose proof (process_entry_without_propmods examples.to_date0
    examples.collector examples.entry_without_propmods 0
    (examples.path_elem {[ "text-mods" := "true"; "kind" := "file";
                           "action" := "M" ]} (Some "/trunk/a.py"))
    eq_refl eq_refl) as (H1 & H2 & _).
  split; [reflexivity|]. split; [reflexivity|]. split; [exact H1 | exact H2].
Defined.

(** ** Lists *)

Section list_facts.

Lemma bind_singleton_fmap {A B} (f : A → B) (l : list A) :
  l ≫= (λ x, [f x]) = f <$> l.
Proof. induction l as [|x l IH]; [done|]. rewrite bind_cons, IH. done. Qed.

Lemma length_filter_fmap {A B} (f : A → B) (P : B → Prop)
    `{!∀ y, Decision (P y)} (l : list A) :
  length (filter P (f <$> l)) = length (filter (P ∘ f) l).
Proof.
  induction l as [|x l IH]; [done|]. rewrite fmap_cons, !filter_cons. simpl.
  destruct (decide (P (f x))); simpl; by rewrite IH.
Qed.

Lemma filter_none {A} (P : A → Prop) `{!∀ x, Decision (P x)} (l : list A) :
  (∀ x, x ∈ l → ¬ P x) → filter P l = [].
Proof.
  induction l as [|x l IH]; intros Hl; [done|].
  rewrite filter_cons_False by (apply Hl; left). apply IH.
  intros y Hy. apply Hl. by right.
Qed.

Lemma StronglySorted_weaken {A} (R R' : relation A) (l : list A) :
  (∀ x y, R x y → R' x y) → StronglySorted R l → StronglySorted R' l.
Proof.
  intros HR. induction 1 as [|x l Hl IH Hx]; constructor; [done|].
  eapply Forall_impl; [exact Hx|]. intros y. apply HR.
Qed.

Lemma length_filter_eq_NoDup {A} `{EqDecision A} (l : list A) x :
  NoDup l → length (filter (λ y, y = x) l) ≤ 1.
Proof.
  induction 1 as [|y l Hy Hl IH]; [simpl; lia|]. rewrite filter_cons.
  destruct (decide (y = x)) as [->|]; [|done]. simpl.
  assert (Hnil : filter (λ y, y = x) l = []).
  { apply filter_none. by intros ? ? ->. }
  rewrite Hnil. simpl. lia.
Qed.

Lemma length_filter_eq_elem {A} `{EqDecision A} (l : list A) x :
  x ∈ l → 1 ≤ length (filter (λ y, y = x) l).
Proof.
  intros Hx. assert (Hin : x ∈ filter (λ y, y = x) l)
    by by apply list_elem_of_filter.
  destruct (filter (λ y, y = x) l); [by apply elem_of_nil in Hin|simpl; lia].
Qed.

End list_facts.

(** ** Group keys and duplicates *)

Section order_facts.
Import pandas.

Lemma compare_refl (a : string) : String.compare a a = Eq.
Proof.
  induction a as [|c a IH]; simpl; [done|].
  unfold Ascii.compare. by rewrite N.compare_refl.
Qed.

Lemma compare_lt_gt (a b : string) :
  String.compare a b = Lt ↔ String.compare b a = Gt.
Proof.
  rewrite (String.compare_antisym b a).
  destruct (String.compare a b); simpl; split; congruence.
Qed.

Lemma compare_lt_trans (a b c : string) :
  String.compare a b = Lt → String.compare b c = Lt →
  String.compare a c = Lt.
Proof.
  intros Hab Hbc.
  assert (Hac : String.le a c).
  { trans b; unfold String.le, String.leb; [by rewrite Hab | by rewrite Hbc]. }
  unfold String.le, String.leb in Hac.
  destruct (String.compare a c) eqn:E; [|done..].
  apply String.compare_eq_iff in E as ->.
  apply compare_lt_gt in Hab. congruence.
Qed.

Lemma key_leb_refl k : key_leb k k = true.
Proof. induction k as [|a k IH]; simpl; [done|]. by rewrite compare_refl. Qed.

Lemma key_leb_trans k1 k2 k3 :
  key_leb k1 k2 = true → key_leb k2 k3 = true → key_leb k1 k3 = true.
Proof.
  revert k2 k3. induction k1 as [|a k1 IH]; intros [|b k2] [|c k3]; simpl;
    try done.
  destruct (String.compare a b) eqn:Hab; [| |done].
  - apply String.compare_eq_iff in Hab as ->.
    destruct (String.compare b c); [apply IH | done..].
  - destruct (String.compare b c) eqn:Hbc; [| |done].
    + apply String.compare_eq_iff in Hbc as ->. by rewrite Hab.
    + by rewrite (compare_lt_trans _ _ _ Hab Hbc).
Qed.

Lemma key_leb_antisym k1 k2 :
  key_leb k1 k2 = true → key_leb k2 k1 = true → k1 = k2.
Proof.
  revert k2. induction k1 as [|a k1 IH]; intros [|b k2]; simpl; try done.
  rewrite (String.compare_antisym b a).
  destruct (String.compare a b) eqn:Hab; simpl; [|done..].
  apply String.compare_eq_iff in Hab as ->. intros ??. f_equal. by apply IH.
Qed.

Lemma key_leb_total k1 k2 : key_leb k1 k2 = true ∨ key_leb k2 k1 = true.
Proof.
  revert k2. induction k1 as [|a k1 IH]; intros [|b k2]; simpl; auto.
  rewrite (String.compare_antisym b a).
  destruct (String.compare a b); simpl; auto.
Qed.

#[global] Instance key_le_po : PartialOrder key_le.
Proof.
  unfold key_le. split; [split|].
  - intros k. by rewrite key_leb_refl.
  - intros k1 k2 k3 H1%Is_true_true H2%Is_true_true.
    apply Is_true_true. by eapply key_leb_trans.
  - intros k1 k2 H1%Is_true_true H2%Is_true_true. by apply key_leb_antisym.
Qed.

#[global] Instance key_le_total : Total key_le.
Proof.
  intros k1 k2. unfold key_le.
  destruct (key_leb_total k1 k2) as [-> | ->]; auto.
Qed.

End order_facts.

Section drop_duplicates_facts.
Import pandas.
Context {A : Type} `{EqDecision A}.
Implicit Types l : list A.

Lemma elem_of_drop_duplicates l x : x ∈ drop_duplicates l ↔ x ∈ l.
Proof.
  induction l as [|y l IH]; simpl; [done|].
  rewrite !elem_of_cons, list_elem_of_filter, IH.
  destruct (decide (x = y)); naive_solver.
Qed.

Lemma NoDup_drop_duplicates l : NoDup (drop_duplicates l).
Proof.
  induction l as [|y l IH]; simpl; [constructor|].
  constructor; [|by apply NoDup_filter].
  rewrite list_elem_of_filter. naive_solver.
Qed.

Lemma drop_duplicates_NoDup l : NoDup l → drop_duplicates l = l.
Proof.
  induction 1 as [|y l Hy Hl IH]; simpl; [done|]. f_equal. rewrite IH.
  clear IH Hl. induction l as [|z l IH]; [done|].
  rewrite filter_cons. apply not_elem_of_cons in Hy as [? ?].
  rewrite decide_True by done. f_equal. by apply IH.
Qed.

Lemma drop_duplicates_Permutation l l' :
  l ≡ₚ l' → drop_duplicates l ≡ₚ drop_duplicates l'.
Proof.
  intros Hl. apply NoDup_Permutation; [apply NoDup_drop_duplicates..|].
  intros x. rewrite !elem_of_drop_duplicates. by rewrite Hl.
Qed.

End drop_duplicates_facts.

Section groupby_facts.
Import pandas.
Context {A K : Type} `{EqDecision K} (R : relation K) `{!RelDecision R}.
Implicit Types (l : list A) (key : A → K).

Lemma elem_of_group_keys key l k :
  k ∈ group_keys R key l ↔ ∃ r, r ∈ l ∧ key r = k.
Proof.
  unfold group_keys. rewrite merge_sort_Permutation, elem_of_drop_duplicates.
  rewrite list_elem_of_fmap. naive_solver.
Qed.

Lemma NoDup_group_keys key l : NoDup (group_keys R key l).
Proof.
  unfold group_keys. rewrite merge_sort_Permutation.
  apply NoDup_drop_duplicates.
Qed.

Lemma elem_of_group key l k r : r ∈ group key l k ↔ r ∈ l ∧ key r = k.
Proof. unfold group. rewrite list_elem_of_filter. naive_solver. Qed.

Lemma group_Permutation key l l' k :
  l ≡ₚ l' → group key l k ≡ₚ group key l' k.
Proof. intros Hl. unfold group. by rewrite Hl. Qed.

Lemma group_nonempty key l k : k ∈ group_keys R key l → 0 < length (group key l k).
Proof.
  intros (r & Hr & Hk)%elem_of_group_keys.
  assert (Hin : r ∈ group key l k) by by apply elem_of_group.
  destruct (group key l k); [by apply elem_of_nil in Hin | simpl; lia].
Qed.

Lemma elem_of_groupby_count key l k n :
  (k, n) ∈ groupby_count R key l ↔
  k ∈ group_keys R key l ∧ n = length (group key l k).
Proof. unfold groupby_count. rewrite list_elem_of_fmap. naive_solver. Qed.

Context `{!PartialOrder R, !Total R}.

Lemma group_keys_Permutation key l l' :
  l ≡ₚ l' → group_keys R key l = group_keys R key l'.
Proof.
  intros Hl. unfold group_keys.
  apply (Sorted_unique R); [apply Sorted_merge_sort, _..|].
  rewrite !merge_sort_Permutation.
  apply drop_duplicates_Permutation. by rewrite Hl.
Qed.

End groupby_facts.

(** ** Floats *)

Section float64_facts.
Import float64.

Lemma nearest_even_bounds (x : Q) :
  let m := nearest_even x in
  (2 * (m * Zpos (Qden x) - Qnum x) ≤ Zpos (Qden x))%Z ∧
  (- Zpos (Qden x) ≤ 2 * (m * Zpos (Qden x) - Qnum x))%Z.
Proof.
  destruct x as [n d]. unfold nearest_even. cbn [Qnum Qden].
  pose proof (Z.div_mod n (Zpos d) ltac:(done)) as Hdm.
  pose proof (Z.mod_pos_bound n (Zpos d) ltac:(done)) as Hr.
  destruct (Z.compare_spec (2 * (n mod Zpos d)) (Zpos d)) as [He|Hl|Hg];
    [destruct (Z.even (n / Zpos d))|..]; cbv zeta; nia.
Qed.

(** The nearest integer is within a half. *)
Lemma nearest_even_spec (x : Q) :
  (Qabs (inject_Z (nearest_even x) - x) <= 1 # 2)%Q.
Proof.
  destruct (nearest_even_bounds x) as [Hu Hl]. cbv zeta in *.
  apply Qabs_Qle_condition. destruct x as [n d]. cbn [Qnum Qden] in *.
  unfold Qle, Qminus, Qplus, Qopp, inject_Z. cbn [Qnum Qden].
  rewrite ?Pos2Z.inj_mul. split; nia.
Qed.

Lemma nearest_even_nonneg (x : Q) : (0 <= x)%Q → (0 ≤ nearest_even x)%Z.
Proof.
  destruct x as [n d]. unfold Qle. cbn [Qnum Qden]. intros Hn.
  assert (0 ≤ n)%Z by lia. unfold nearest_even. cbn [Qnum Qden].
  pose proof (Z.div_pos n (Zpos d) ltac:(done) ltac:(done)).
  repeat case_match; lia.
Qed.

Lemma two_power_pos (e : Z) : (0 < 2 ^ e)%Q.
Proof. by apply Qpower_0_lt. Qed.

(** At least 53 bits of [q] are above the exponent. *)
Lemma exponent_spec (q : Q) : (0 < q)%Q → (2 ^ (exponent q + 52) <= q)%Q.
Proof.
  intros Hq. unfold exponent.
  set (a := Z.log2 (Qnum q)). set (b := Z.log2 (Zpos (Qden q))).
  destruct (Qle_bool (2 ^ (a - b)) q) eqn:Hle.
  - apply Qle_bool_iff in Hle.
    by replace (a - b - 52 + 52)%Z with (a - b)%Z by lia.
  - replace (a - b - 1 - 52 + 52)%Z with (a - (b + 1))%Z by lia.
    assert (Hn : (0 < Qnum q)%Z).
    { destruct q as [n d]. unfold Qlt in Hq. cbn [Qnum Qden] in *. lia. }
    pose proof (Z.log2_spec (Qnum q) Hn) as [Ha _].
    pose proof (Z.log2_spec (Zpos (Qden q)) ltac:(done)) as [_ Hb].
    fold a in Ha. fold b in Hb.
    assert (0 ≤ a)%Z by apply Z.log2_nonneg.
    assert (0 ≤ b)%Z by apply Z.log2_nonneg.
    rewrite Qpower_minus by done.
    change 2%Q with (inject_Z 2).
    rewrite <- !Zpower_Qpower by lia.
    destruct q as [n d]. cbn [Qnum Qden] in *.
    replace (Z.succ b) with (b + 1)%Z in Hb by lia.
    assert (Hp : (0 < 2 ^ (b + 1))%Z) by (apply Z.pow_pos_nonneg; lia).
    apply Qle_shift_div_r;
      [change 0%Q with (inject_Z 0); by rewrite <- Zlt_Qlt|].
    unfold Qle, Qmult, inject_Z. cbn [Qnum Qden]. nia.
Qed.

Lemma round_pos_error (q : Q) :
  (0 < q)%Q → (Qabs (round_pos q - q) <= (1 # 2 ^ 53) * q)%Q.
Proof.
  intros Hq. unfold round_pos.
  set (e := exponent q). set (P := (2 ^ e)%Q).
  assert (HP : (0 < P)%Q) by apply two_power_pos.
  set (x := (q * 2 ^ (- e))%Q).
  assert (Hx : (q == x * P)%Q).
  { subst x P. rewrite Qpower_opp. field. by apply Qpower_not_0. }
  pose proof (nearest_even_spec x) as Hm.
  set (m := inject_Z (nearest_even x)) in *.
  assert (Hlow : (P * inject_Z (2 ^ 52) <= q)%Q).
  { pose proof (exponent_spec q Hq) as He. fold e in He.
    rewrite Qpower_plus in He by done. fold P in He.
    by rewrite Zpower_Qpower. }
  assert (Heq : (m * P - q == (m - x) * P)%Q) by (rewrite Hx at 1; ring).
  rewrite Heq, Qabs_Qmult, (Qabs_pos P) by lra.
  assert ((Qabs (m - x) * P <= (1 # 2) * P)%Q).
  { apply Qmult_le_compat_r; lra. }
  change (inject_Z (2 ^ 52)) with (4503599627370496 # 1)%Q in Hlow.
  change (1 # 2 ^ 53)%Q with (1 # 9007199254740992)%Q. lra.
Qed.

(** Rounding moves a number by at most one part in 2^53. *)
Lemma round_error (q : Q) :
  (Qabs (round q - q) <= (1 # 2 ^ 53) * Qabs q)%Q.
Proof.
  unfold round. destruct q as [[|n|n] d] eqn:Hq; cbn [Qnum].
  - rewrite <- Hq. assert (q == 0)%Q as -> by (by subst q). done.
  - rewrite <- Hq. assert (0 < q)%Q by (by subst q).
    rewrite (Qabs_pos q) by lra. by apply round_pos_error.
  - rewrite <- Hq. assert (q < 0)%Q by (by subst q).
    rewrite (Qabs_neg q) by lra.
    assert (Heq : (- round_pos (- q) - q == - (round_pos (- q) - - q))%Q)
      by ring.
    rewrite Heq, Qabs_opp. apply round_pos_error. lra.
Qed.

Lemma round_nonneg (q : Q) : (0 <= q)%Q → (0 <= round q)%Q.
Proof.
  intros Hq. unfold round. destruct q as [[|n|n] d] eqn:Heq; cbn [Qnum].
  - done.
  - rewrite <- Heq. unfold round_pos. apply Qmult_le_0_compat.
    + change 0%Q with (inject_Z 0). rewrite <- Zle_Qle.
      apply nearest_even_nonneg. apply Qmult_le_0_compat; [by subst q|].
      apply Qlt_le_weak, two_power_pos.
    + apply Qlt_le_weak, two_power_pos.
  - by destruct Hq.
Qed.

(** The quotient of two integers, the divisor positive and a float: the
    two roundings move it by less than one part in 2^51. *)
Lemma div_of_int_error (z D : Z) :
  (0 < D)%Z → (of_int D == inject_Z D)%Q →
  (Qabs (div (of_int z) (of_int D) - inject_Z z / inject_Z D)
   <= (1 # 2 ^ 51) * Qabs (inject_Z z / inject_Z D))%Q.
Proof.
  intros HD HofD. set (days := (inject_Z z / inject_Z D)%Q). unfold div.
  assert (HDq : (0 < inject_Z D)%Q)
    by (change 0%Q with (inject_Z 0); by rewrite <- Zlt_Qlt).
  set (y := of_int z). set (w := (y / of_int D)%Q).
  pose proof (round_error (inject_Z z)) as H1.
  fold (of_int z) in H1. fold y in H1.
  pose proof (round_error w) as H2.
  assert (Hw : (w - days == (y - inject_Z z) / inject_Z D)%Q).
  { subst w days. rewrite HofD. field. lra. }
  assert (H3 : (Qabs (w - days) <= (1 # 2 ^ 53) * Qabs days)%Q).
  { rewrite Hw. subst days. unfold Qdiv. rewrite !Qabs_Qmult.
    rewrite (Qabs_pos (/ inject_Z D))
      by (apply Qlt_le_weak, Qinv_lt_0_compat, HDq).
    rewrite Qmult_assoc. apply Qmult_le_compat_r; [done|].
    by apply Qlt_le_weak, Qinv_lt_0_compat. }
  assert (H4 : (Qabs w <= Qabs days + Qabs (w - days))%Q).
  { assert (Hs : (w == days + (w - days))%Q) by ring.
    rewrite Hs at 1. apply Qabs_triangle. }
  assert (H5 : (Qabs (round w - days)
                <= Qabs (round w - w) + Qabs (w - days))%Q).
  { assert (Hs : (round w - days == (round w - w) + (w - days))%Q) by ring.
    rewrite Hs. apply Qabs_triangle. }
  pose proof (Qabs_nonneg days).
  change (1 # 2 ^ 53)%Q with (1 # 9007199254740992)%Q in *.
  change (1 # 2 ^ 51)%Q with (1 # 2251799813685248)%Q.
  lra.
Qed.

Lemma div_of_int_nonneg (z D : Z) :
  (0 ≤ z)%Z → (0 < D)%Z → (of_int D == inject_Z D)%Q →
  (0 <= div (of_int z) (of_int D))%Q.
Proof.
  intros Hz HD HofD. apply round_nonneg. rewrite HofD.
  apply Qle_shift_div_l;
    [change 0%Q with (inject_Z 0); by rewrite <- Zlt_Qlt|].
  rewrite Qmult_0_l. apply round_nonneg.
  change 0%Q with (inject_Z 0). by rewrite <- Zle_Qle.
Qed.

End float64_facts.

(** ** get_ages *)

Section ages_facts.
Import scm pandas core.

Lemma foldr_max_ge (d : Z) l x : x ∈ d :: l → (x ≤ foldr Z.max d l)%Z.
Proof.
  induction l as [|y l IH]; simpl.
  - intros ->%list_elem_of_singleton. lia.
  - rewrite !elem_of_cons. intros [->|[->|Hx]].
    + assert (d ≤ foldr Z.max d l)%Z by (apply IH; left). lia.
    + lia.
    + assert (x ≤ foldr Z.max d l)%Z by (apply IH; by right). lia.
Qed.

Lemma foldr_max_elem (d : Z) l : foldr Z.max d l ∈ d :: l.
Proof.
  induction l as [|y l IH]; simpl; [left|].
  destruct (Z.max_spec y (foldr Z.max d l)) as [[_ ->]|[_ ->]].
  - apply elem_of_cons in IH as [->|?]; [left | by do 2 right].
  - right; left.
Qed.

Lemma max_date_ge l x : x ∈ l → (x ≤ max_date l)%Z.
Proof. destruct l; [by intros ?%elem_of_nil | apply foldr_max_ge]. Qed.

Lemma max_date_elem l : l ≠ [] → max_date l ∈ l.
Proof. destruct l; [done | intros _; apply foldr_max_elem]. Qed.

Lemma max_date_Permutation l l' : l ≡ₚ l' → max_date l = max_date l'.
Proof.
  intros Hl. destruct (decide (l = [])) as [->|Hne].
  { by apply Permutation_nil_l in Hl as ->. }
  assert (Hne' : l' ≠ []) by (intros ->; by apply Permutation_nil_r in Hl).
  apply Z.le_antisymm; apply max_date_ge.
  - rewrite <- Hl. by apply max_date_elem.
  - rewrite Hl. by apply max_date_elem.
Qed.

Lemma max_dates_Permutation data data' by_ :
  data ≡ₚ data' → max_dates data' by_ = max_dates data by_.
Proof.
  intros Hd. unfold max_dates. destruct by_ as [|c by_]; [done|]. f_equal.
  rewrite (group_keys_Permutation key_le _ data data') by done.
  apply list_fmap_ext. intros _ k _. f_equal.
  apply max_date_Permutation. by rewrite (group_Permutation _ data data').
Qed.

Lemma max_dates_ok data by_ :
  by_ ≠ [] →
  max_dates data by_
  = Ok ((λ k, (k, max_date (date <$> group (key_of by_) data k)))
          <$> group_keys key_le (key_of by_) data).
Proof. by destruct by_. Qed.

(** One day is a float. *)
Lemma of_int_day : (float64.of_int day == inject_Z day)%Q.
Proof. by vm_compute. Qed.

Lemma age_nonneg (now d : Z) :
  (d ≤ now)%Z →
  (0 <= float64.div (float64.of_int (now - d)) (float64.of_int day))%Q.
Proof.
  intros Hd. apply div_of_int_nonneg; [lia|done|apply of_int_day].
Qed.

(** The rows of [get_ages]. *)
Lemma get_ages_rows (now : Z) (data : list LogEntry)
    (by_ : option (list Column)) :
  by_ ≠ Some [] →
  ∃ rows, get_ages now data by_ = Ok rows ∧
    NoDup (age_key <$> rows) ∧
    (∀ e, e ∈ data → key_of (default [path] by_) e ∈ age_key <$> rows) ∧
    (∀ a, a ∈ rows → ∃ d,
       (∃ e, e ∈ data ∧ key_of (default [path] by_) e = age_key a ∧
             date e = d) ∧
       (∀ e, e ∈ data → key_of (default [path] by_) e = age_key a →
             (date e ≤ d)%Z) ∧
       age a = float64.div (float64.of_int (now - d)) (float64.of_int day) ∧
       (Qabs (age a - inject_Z (now - d) / inject_Z day)
        <= (1 # 2 ^ 51) * Qabs (inject_Z (now - d) / inject_Z day))%Q) ∧
    ((∀ e, e ∈ data → (date e ≤ now)%Z) →
     ∀ a, a ∈ rows → (0 <= age a)%Q).
Proof.
  intros Hby. unfold get_ages.
  set (cols := default [path] by_).
  assert (Hcols : cols ≠ []) by (subst cols; by destruct by_ as [[|]|]).
  rewrite max_dates_ok by done. simpl. eexists. split; [reflexivity|].
  set (key := key_of cols).
  assert (Hrow : ∀ a,
    a ∈ drop_date (age_in_days (set_age now
          ((λ k, (k, max_date (date <$> group key data k)))
             <$> group_keys key_le key data))) ↔
    ∃ k, k ∈ group_keys key_le key data ∧
         a = mkAge k (float64.div
               (float64.of_int (now - max_date (date <$> group key data k)))
               (float64.of_int day))).
  { intros a. unfold drop_date, age_in_days, set_age.
    rewrite <- !list_fmap_compose, list_elem_of_fmap. simpl. naive_solver. }
  assert (Hmax : ∀ k, k ∈ group_keys key_le key data →
    let d := max_date (date <$> group key data k) in
    (∃ e, e ∈ data ∧ key e = k ∧ date e = d) ∧
    (∀ e, e ∈ data → key e = k → (date e ≤ d)%Z)).
  { intros k Hk d. split.
    - assert (Hin : d ∈ date <$> group key data k).
      { apply max_date_elem. intros Hnil%fmap_nil_inv.
        apply (group_nonempty key_le) in Hk. rewrite Hnil in Hk.
        simpl in Hk. lia. }
      apply list_elem_of_fmap in Hin as (e & He & Hin).
      apply elem_of_group in Hin as [? ?]. eauto.
    - intros e He Hke. apply max_date_ge, list_elem_of_fmap.
      exists e. split; [done|]. by apply elem_of_group. }
  split; [|split; [|split]].
  - unfold drop_date, age_in_days, set_age.
    rewrite <- !list_fmap_compose.
    erewrite list_fmap_ext; [rewrite list_fmap_id; apply NoDup_group_keys|].
    by intros.
  - intros e He. apply list_elem_of_fmap.
    eexists (mkAge (key e) _). split; [done|]. apply Hrow.
    exists (key e). split; [|done]. apply elem_of_group_keys. eauto.
  - intros a (k & Hk & ->)%Hrow. eexists. simpl.
    destruct (Hmax k Hk) as [H1 H2]. split; [exact H1|]. split; [exact H2|].
    split; [done|]. apply div_of_int_error; [done | apply of_int_day].
  - intros Hnow a (k & Hk & ->)%Hrow. simpl. apply age_nonneg.
    destruct (Hmax k Hk) as [(e & He & _ & <-) _]. by apply Hnow.
Qed.

End ages_facts.



(** ** get_co_changes *)

Section co_changes_facts.
Import scm pandas core.
Implicit Types df : list (string * string).

Lemma self_join_bind df (l : list (string * string)) :
  (l ≫= λ '(o, p), filter (λ r, r.1 = o) df ≫= λ '(_, q), [(o, p, q)])
  = l ≫= joined_with df.
Proof.
  apply list_bind_ext; [|done]. intros [o p]. unfold joined_with. simpl.
  rewrite <- bind_singleton_fmap. apply list_bind_ext; [|done]. by intros [? ?].
Qed.

Lemma elem_of_self_join df o p q :
  (o, p, q) ∈ self_join df ↔ (o, p) ∈ df ∧ (o, q) ∈ df.
Proof.
  unfold self_join. rewrite self_join_bind, list_elem_of_bind. split.
  - intros ([o' p'] & Hin & Hx). unfold joined_with in Hin. simpl in Hin.
    apply list_elem_of_fmap in Hin as ([o2 q2] & [= -> -> ->] & Hin).
    apply list_elem_of_filter in Hin as [Ho Hin]. simpl in Ho. by subst.
  - intros [Hp Hq]. exists (o, p). split; [|done]. unfold joined_with.
    apply list_elem_of_fmap. exists (o, q). split; [done|].
    by apply list_elem_of_filter.
Qed.

Lemma joined_with_count df o p1 p q :
  length (group pair_key (joined_with df (o, p1)) [p; q])
  = if decide (p1 = p) then length (filter (λ r, r = (o, q)) df) else 0.
Proof.
  unfold group, joined_with, pair_key. simpl.
  induction df as [|[o' q'] df IH]; [by destruct (decide _)|].
  rewrite (filter_cons (λ r, r.1 = o)), (filter_cons (λ r, r = (o, q))).
  simpl. destruct (decide (o' = o)) as [->|Ho].
  - rewrite fmap_cons, filter_cons. simpl.
    destruct (decide ([p1; q'] = [p; q])) as [[= -> ->]|Hk]; simpl.
    + rewrite IH, !decide_True by done. done.
    + rewrite IH. destruct (decide (p1 = p)) as [->|]; [|done].
      rewrite decide_False; [done|]. intros [= ->]. done.
  - rewrite IH. destruct (decide (p1 = p)); [|done].
    rewrite decide_False; [done|]. by intros [= ? ?].
Qed.

(** Two paths change together at most as often as the first changes. *)
Lemma cochanges_le_changes df p q :
  NoDup df →
  length (group pair_key (self_join df) [p; q])
  ≤ length (group pair_key (self_join df) [p; p]).
Proof.
  intros Hnd. unfold self_join. rewrite self_join_bind.
  assert (Hsub : ∀ l, l ⊆ df →
    length (group pair_key (l ≫= joined_with df) [p; q])
    ≤ length (group pair_key (l ≫= joined_with df) [p; p])).
  { induction l as [|[o p1] l IH]; intros Hl; [done|].
    rewrite bind_cons. unfold group in *. rewrite !filter_app, !length_app.
    assert (Hin : (o, p1) ∈ df) by (apply Hl; left).
    assert (IH' := IH ltac:(set_solver)).
    pose proof (joined_with_count df o p1 p q) as Hq.
    pose proof (joined_with_count df o p1 p p) as Hp.
    unfold group in Hq, Hp. rewrite Hq, Hp.
    destruct (decide (p1 = p)) as [->|]; [|lia].
    pose proof (length_filter_eq_NoDup df (o, q) Hnd).
    pose proof (length_filter_eq_elem df (o, p) Hin). lia. }
  by apply Hsub.
Qed.

Lemma elem_of_pair_counts df p q n :
  (p, q, n) ∈ pair_counts df ↔
  [p; q] ∈ group_keys key_le pair_key (self_join df) ∧
  n = length (group pair_key (self_join df) [p; q]).
Proof.
  unfold pair_counts. rewrite list_elem_of_fmap. split.
  - intros ([k m] & [= -> -> ->] & Hin). simpl.
    apply elem_of_groupby_count in Hin as [Hk ->].
    pose proof Hk as ([[o p] q] & _ & <-)%elem_of_group_keys. simpl in *.
    done.
  - intros [Hk ->]. eexists ([p; q], _). split; [done|].
    by apply elem_of_groupby_count.
Qed.

Lemma elem_of_joined sj p n q c :
  (p, n, q, c) ∈ joined sj ↔ (p, p, n) ∈ sj ∧ (p, q, c) ∈ sj ∧ p ≠ q.
Proof.
  unfold joined. rewrite list_elem_of_bind. split.
  - intros ([[p1 p2] n1] & Hin & Hself).
    apply list_elem_of_filter in Hself as [Heq Hself]. simpl in Heq. subst p2.
    apply list_elem_of_bind in Hin as ([[p3 q3] c3] & Hin & Hcross).
    apply list_elem_of_singleton in Hin as [= -> -> -> ->].
    apply list_elem_of_filter in Hcross as [Heq Hcross]. simpl in Heq. subst p3.
    apply list_elem_of_filter in Hcross as [Hne Hcross]. done.
  - intros (Hself & Hcross & Hne). exists (p, p, n). split.
    + apply list_elem_of_bind. exists (p, q, c). split; [set_solver|].
      apply list_elem_of_filter. split; [done|].
      by apply list_elem_of_filter.
    + by apply list_elem_of_filter.
Qed.

Lemma elem_of_set_coupling rows r :
  r ∈ set_coupling rows ↔
  ∃ p n q c, (p, n, q, c) ∈ rows ∧
    r = mkCoChange p q n c (inject_Z (Z.of_nat c) / inject_Z (Z.of_nat n))%Q.
Proof.
  unfold set_coupling. rewrite list_elem_of_fmap. split.
  - intros ([[[p n] q] c] & -> & Hin). by exists p, n, q, c.
  - intros (p & n & q & c & Hin & ->). by exists (p, n, q, c).
Qed.

#[global] Instance coupling_ge_trans : Transitive coupling_ge.
Proof.
  intros x y z. unfold coupling_ge.
  rewrite !Is_true_true, !Qle_bool_iff. intros H1 H2.
  eapply Qle_trans; [exact H2 | exact H1].
Qed.

#[global] Instance coupling_ge_total : Total coupling_ge.
Proof.
  intros x y. unfold coupling_ge. rewrite !Is_true_true, !Qle_bool_iff.
  destruct (Qlt_le_dec (coupling x) (coupling y)); auto using Qlt_le_weak.
Qed.

End co_changes_facts.

(** C2. No row of [get_co_changes] pairs a path with itself; in every row
    [cochanges] is at most [changes] (which is positive, and [coupling] is
    their quotient); and the rows are in descending order of [coupling]. *)
Theorem get_co_changes_spec (log : list scm.LogEntry)
    (by_ on : option core.Column) :
  let out := core.get_co_changes log by_ on in
  (∀ r, r ∈ out →
     core.primary r ≠ core.dependency r ∧
     0 < core.changes r ∧
     core.cochanges r ≤ core.changes r ∧
     core.coupling r = (inject_Z (Z.of_nat (core.cochanges r))
                        / inject_Z (Z.of_nat (core.changes r)))%Q) ∧
  StronglySorted (λ x y, (core.coupling y <= core.coupling x)%Q) out.
Proof.
  cbv zeta. unfold core.get_co_changes, core.sort_by_coupling. split.
  - intros r. rewrite merge_sort_Permutation.
    intros (p & n & q & c & Hin & ->)%elem_of_set_coupling. simpl.
    apply elem_of_joined in Hin as (Hself & Hcross & Hne).
    apply elem_of_pair_counts in Hself as [Hk ->].
    apply elem_of_pair_counts in Hcross as [_ ->].
    split; [done|]. split; [by apply (group_nonempty pandas.key_le)|].
    split; [|done]. apply cochanges_le_changes, NoDup_drop_duplicates.
  - eapply StronglySorted_weaken;
      [|apply (StronglySorted_merge_sort core.coupling_ge)].
    intros x y. unfold core.coupling_ge.
    by rewrite Is_true_true, Qle_bool_iff.
Qed.

Lemma get_co_changes_spec_witness :
  let r := core.mkCoChange "a" "c" 2 1 (1 # 2) in
  r ∈ core.get_co_changes examples.scenario None None ∧
  core.primary r ≠ core.dependency r ∧ core.cochanges r ≤ core.changes r.
Proof.
  set (r := core.mkCoChange "a" "c" 2 1 (1 # 2)).
  assert (H : r ∈ core.get_co_changes examples.scenario None None)
    by (vm_compute; set_solver).
  destruct (proj1 (get_co_changes_spec examples.scenario None None) r H)
    as (H1 & _ & H2 & _).
  split; [exact H|]. split; [exact H1 | exact H2].
Defined.

(** C3. On a log whose (revision, path) rows are 1:a, 1:b, 1:c, 2:a, 2:b and
    3:c, [get_co_changes] has a row for (a, b) with changes 2, cochanges 2
    and coupling 1, and a row for (a, c) with changes 2, cochanges 1 and
    coupling 1/2. *)
Theorem get_co_changes_scenario (log : list scm.LogEntry) :
  (λ e, (scm.revision e, scm.path e)) <$> log
  = [("1", "a"); ("1", "b"); ("1", "c"); ("2", "a"); ("2", "b"); ("3", "c")] →
  let out := core.get_co_changes log None None in
  (∃ r, r ∈ out ∧ core.primary r = "a" ∧ core.dependency r = "b" ∧
        core.changes r = 2 ∧ core.cochanges r = 2 ∧
        (core.coupling r == 1)%Q) ∧
  (∃ r, r ∈ out ∧ core.primary r = "a" ∧ core.dependency r = "c" ∧
        core.changes r = 2 ∧ core.cochanges r = 1 ∧
        (core.coupling r == 1 # 2)%Q).
Proof.
  intros Hlog. cbv zeta. unfold core.get_co_changes, core.pairs. simpl.
  rewrite Hlog.
  set (out := core.sort_by_coupling _). vm_compute in out. subst out. split.
  - exists (core.mkCoChange "a" "b" 2 2 (2 # 2)).
    split; [set_solver|]. by repeat split.
  - exists (core.mkCoChange "a" "c" 2 1 (1 # 2)).
    split; [set_solver|]. by repeat split.
Qed.

Lemma get_co_changes_scenario_witness :
  (λ e, (scm.revision e, scm.path e)) <$> examples.scenario
  = [("1", "a"); ("1", "b"); ("1", "c"); ("2", "a"); ("2", "b"); ("3", "c")] ∧
  ∃ r, r ∈ core.get_co_changes examples.scenario None None ∧
       core.primary r = "a" ∧ core.dependency r = "b" ∧
       core.changes r = 2 ∧ core.cochanges r = 2 ∧ (core.coupling r == 1)%Q.
Proof.
  split; [reflexivity|].
  exact (proj1 (get_co_changes_scenario examples.scenario eq_refl)).
Defined.

(** ** get_mass_change_sets *)

Section mass_change_facts.
Import scm pandas core.

Lemma elem_of_merge_on_revision left right m :
  m ∈ merge_on_revision left right ↔
  (mc_revision m, path_count m) ∈ left ∧
  (mc_revision m, mc_message m, mc_author m) ∈ right.
Proof.
  unfold merge_on_revision. rewrite list_elem_of_bind. split.
  - intros ([rev n] & Hin & Hleft).
    apply list_elem_of_bind in Hin as ([[rev' msg] auth] & Hin & Hright).
    apply list_elem_of_singleton in Hin as ->. simpl.
    apply list_elem_of_filter in Hright as [Heq Hright]. simpl in Heq.
    by subst.
  - destruct m as [rev n msg auth]. simpl. intros [Hleft Hright].
    exists (rev, n). split; [|done]. apply list_elem_of_bind.
    exists (rev, msg, auth). split; [set_solver|].
    by apply list_elem_of_filter.
Qed.

Lemma elem_of_count_by_revision log rev n :
  (rev, n) ∈ count_by_revision log ↔
  rev ∈ revision <$> log ∧ n = length (group revision log rev).
Proof.
  unfold count_by_revision.
  rewrite elem_of_groupby_count, elem_of_group_keys, list_elem_of_fmap.
  naive_solver.
Qed.

Lemma NoDup_paths_of_revision log rev :
  NoDup ((λ e, (revision e, path e)) <$> log) →
  NoDup (path <$> filter (λ e, revision e = rev) log).
Proof.
  induction log as [|e log IH]; [constructor|].
  rewrite fmap_cons, NoDup_cons. intros [Hnin Hnd]. rewrite filter_cons.
  destruct (decide (revision e = rev)) as [Hrev|]; [|by apply IH].
  rewrite fmap_cons. constructor; [|by apply IH].
  intros (e' & Hp & [Hr Hin]%list_elem_of_filter)%list_elem_of_fmap.
  apply Hnin, list_elem_of_fmap. exists e'. split; [|done]. congruence.
Qed.

(** Where no (revision, path) row is repeated, the rows of a revision are
    as many as its distinct paths. *)
Lemma rows_distinct_paths log rev :
  NoDup ((λ e, (revision e, path e)) <$> log) →
  length (group revision log rev) = distinct_paths log rev.
Proof.
  intros Hnd. unfold distinct_paths, group.
  rewrite drop_duplicates_NoDup by by apply NoDup_paths_of_revision.
  by rewrite length_fmap.
Qed.

Lemma elem_of_get_mass_change_sets log k m :
  m ∈ get_mass_change_sets log k ↔
  (k < Z.of_nat (path_count m))%Z ∧
  path_count m = length (group revision log (mc_revision m)) ∧
  (∃ e, e ∈ log ∧
     (revision e, message e, author e)
     = (mc_revision m, mc_message m, mc_author m)).
Proof.
  unfold get_mass_change_sets, massive.
  rewrite elem_of_merge_on_revision, list_elem_of_filter.
  rewrite elem_of_count_by_revision, elem_of_drop_duplicates.
  rewrite !list_elem_of_fmap. simpl. split.
  - intros [[Hk [_ Hn]] [e [He Hin]]]. eauto 6.
  - intros (Hk & Hn & e & He & Heq). split; [|by eauto].
    split; [done|]. split; [|done]. exists e. split; [|done]. congruence.
Qed.

Lemma NoDup_get_mass_change_sets log k :
  NoDup ((λ m, (mc_revision m, mc_message m, mc_author m))
           <$> get_mass_change_sets log k).
Proof.
  apply NoDup_fmap_2_strong.
  - intros [r1 n1 m1 a1] [r2 n2 m2 a2] H1 H2 [= -> -> ->].
    apply elem_of_get_mass_change_sets in H1 as (_ & H1 & _).
    apply elem_of_get_mass_change_sets in H2 as (_ & H2 & _).
    simpl in *. congruence.
  - unfold get_mass_change_sets, massive, merge_on_revision.
    apply NoDup_bind.
    + intros [r1 n1] [r2 n2] m H1 H2 Hm1 Hm2.
      apply list_elem_of_bind in Hm1 as ([[? ?] ?] & ->%list_elem_of_singleton & _).
      apply list_elem_of_bind in Hm2 as ([[? ?] ?] & [= -> ->]%list_elem_of_singleton & _).
      done.
    + intros [r n] _. apply NoDup_bind.
      * intros [[r1 m1] a1] [[r2 m2] a2] m [H1 _]%list_elem_of_filter
          [H2 _]%list_elem_of_filter ->%list_elem_of_singleton
          [= -> ->]%list_elem_of_singleton.
        simpl in *. by subst.
      * intros [[? ?] ?] _. apply NoDup_singleton.
      * apply NoDup_filter, NoDup_drop_duplicates.
    + apply NoDup_filter. unfold count_by_revision, groupby_count.
      apply NoDup_fmap_2; [by intros ?? [= ?]|]. apply NoDup_group_keys.
Qed.

End mass_change_facts.

(** C1 (as amended). For a log in which no (revision, path) row is repeated,
    [get_mass_change_sets] returns exactly the revisions with more than
    [min_changes] distinct paths, with that number as [path_count]; it has
    one row for each distinct (message, author) the log gives the revision,
    hence one row per revision where the rows of a revision agree on them;
    and each row matches exactly one de-duplicated (revision, message,
    author) row of the log. *)
Theorem get_mass_change_sets_spec (log : list scm.LogEntry) (min_changes : Z) :
  NoDup ((λ e, (scm.revision e, scm.path e)) <$> log) →
  let out := core.get_mass_change_sets log min_changes in
  let row := λ m, (core.mc_revision m, core.mc_message m, core.mc_author m) in
  let rows_of_log :=
    pandas.drop_duplicates
      ((λ e, (scm.revision e, scm.message e, scm.author e)) <$> log) in
  (∀ rev, rev ∈ core.mc_revision <$> out ↔
          rev ∈ scm.revision <$> log ∧
          (min_changes < Z.of_nat (core.distinct_paths log rev))%Z) ∧
  (∀ m, m ∈ out →
        core.path_count m = core.distinct_paths log (core.mc_revision m) ∧
        length (filter (λ t, t = row m) rows_of_log) = 1) ∧
  NoDup (row <$> out) ∧
  (∀ t, t ∈ rows_of_log →
        (min_changes < Z.of_nat (core.distinct_paths log t.1.1))%Z →
        t ∈ row <$> out) ∧
  ((∀ e1 e2, e1 ∈ log → e2 ∈ log → scm.revision e1 = scm.revision e2 →
             scm.message e1 = scm.message e2 ∧ scm.author e1 = scm.author e2) →
   NoDup (core.mc_revision <$> out)).
Proof.
  intros Hnd out row rows_of_log.
  assert (Hout : ∀ m, m ∈ out ↔
    (min_changes < Z.of_nat (core.path_count m))%Z ∧
    core.path_count m = core.distinct_paths log (core.mc_revision m) ∧
    ∃ e, e ∈ log ∧
         (scm.revision e, scm.message e, scm.author e) = row m).
  { intros m. subst out. rewrite elem_of_get_mass_change_sets.
    by rewrite rows_distinct_paths. }
  split; [|split; [|split; [|split]]].
  - intros rev. split.
    + intros (m & -> & (Hk & Hn & e & He & [= Hr _ _])%Hout)%list_elem_of_fmap.
      split; [apply list_elem_of_fmap; eauto | by rewrite <- Hn].
    + intros [(e & -> & He)%list_elem_of_fmap Hk]. apply list_elem_of_fmap.
      exists (core.mkMassChange (scm.revision e)
                (core.distinct_paths log (scm.revision e))
                (scm.message e) (scm.author e)).
      split; [done|]. apply Hout. simpl. eauto.
  - intros m (_ & Hn & e & He & Heq)%Hout. split; [done|].
    apply Nat.le_antisymm.
    + apply length_filter_eq_NoDup, NoDup_drop_duplicates.
    + apply length_filter_eq_elem. subst rows_of_log.
      apply elem_of_drop_duplicates, list_elem_of_fmap. eauto.
  - apply NoDup_get_mass_change_sets.
  - intros [[rev msg] auth] Ht Hk. simpl in Hk.
    apply elem_of_drop_duplicates, list_elem_of_fmap in Ht
      as (e & [= -> -> ->] & He).
    apply list_elem_of_fmap.
    exists (core.mkMassChange (scm.revision e)
              (core.distinct_paths log (scm.revision e))
              (scm.message e) (scm.author e)).
    split; [done|]. apply Hout. simpl. eauto.
  - intros Hsame. apply NoDup_fmap_2_strong.
    + intros [r1 n1 m1 a1] [r2 n2 m2 a2]
        (_ & H1 & e1 & He1 & [= <- <- <-])%Hout
        (_ & H2 & e2 & He2 & [= <- <- <-])%Hout Hr.
      simpl in *. destruct (Hsame e1 e2 He1 He2 Hr) as [-> ->]. congruence.
    + eapply NoDup_fmap_1, NoDup_get_mass_change_sets.
Qed.

Lemma get_mass_change_sets_spec_witness :
  NoDup ((λ e, (scm.revision e, scm.path e)) <$> examples.scenario) ∧
  (∀ rev, rev ∈ core.mc_revision
                  <$> core.get_mass_change_sets examples.scenario 2 ↔
          rev ∈ scm.revision <$> examples.scenario ∧
          (2 < Z.of_nat (core.distinct_paths examples.scenario rev))%Z).
Proof.
  assert (H : NoDup ((λ e, (scm.revision e, scm.path e)) <$> examples.scenario))
    by (apply (bool_decide_unpack _); vm_compute; exact I).
  split; [exact H|].
  exact (proj1 (get_mass_change_sets_spec examples.scenario 2 H)).
Defined.

(** C1 as stated fails twice. A revision logged with two messages has two
    rows in the result; and a revision whose one path is logged twice is
    returned for the threshold 1, because rows are counted, not distinct
    paths. *)
Lemma get_mass_change_sets_counterexample :
  ¬ NoDup (core.mc_revision
             <$> core.get_mass_change_sets examples.two_messages 1) ∧
  ("1" ∈ core.mc_revision
           <$> core.get_mass_change_sets examples.logged_twice 1 ∧
   core.distinct_paths examples.logged_twice "1" = 1).
Proof.
  split.
  - vm_compute. intros Hnd. apply NoDup_cons in Hnd as [Hnin _].
    apply Hnin. left.
  - split; [vm_compute; left | reflexivity].
Qed.

(** ** get_hot_spots *)

Section hot_spots_facts.
Import scm pandas core.

Lemma last_key_of (columns : list Column) (c : Column) e :
  List.last (key_of (columns ++ [c]) e) "" = c e.
Proof. unfold key_of. rewrite fmap_app. simpl. apply last_last. Qed.

Lemma lookup_count_fmap (f : string → nat) (values : list string) k :
  lookup_count ((λ v, (v, f v)) <$> values) k
  = if decide (k ∈ values) then Some (f k) else None.
Proof.
  unfold lookup_count. induction values as [|v values IH].
  { destruct (decide (k ∈ [])) as [Hk|]; [by apply elem_of_nil in Hk|done]. }
  rewrite fmap_cons. cbn [List.find fst].
  destruct (decide (v = k)) as [->|Hne].
  - rewrite bool_decide_eq_true_2 by done.
    destruct (decide (k ∈ k :: values)) as [|Hk]; [done|].
    exfalso. apply Hk. left.
  - rewrite bool_decide_eq_false_2 by done. rewrite IH.
    destruct (decide (k ∈ values)), (decide (k ∈ v :: values)) as [Hk|Hk];
      try done.
    + exfalso. apply Hk. by right.
    + apply elem_of_cons in Hk as [->|?]; done.
Qed.

Lemma lookup_value_counts values k :
  lookup_count (value_counts values) k
  = if decide (k ∈ values)
    then Some (length (filter (λ x, x = k) values)) else None.
Proof.
  unfold value_counts. rewrite lookup_count_fmap.
  destruct (decide (k ∈ values)) as [Hk|Hk].
  - by rewrite decide_True by by apply elem_of_drop_duplicates.
  - rewrite decide_False; [done|]. by rewrite elem_of_drop_duplicates.
Qed.

Lemma value_counts_keys values : (value_counts values).*1 = drop_duplicates values.
Proof.
  unfold value_counts. rewrite <- list_fmap_compose.
  erewrite list_fmap_ext; [apply list_fmap_id|]. by intros.
Qed.

Lemma elem_of_changed log columns (c : Column) k :
  k ∈ changed log (columns ++ [c]) ↔ k ∈ c <$> log.
Proof.
  unfold changed. rewrite !list_elem_of_fmap. split.
  - intros (row & -> & (e & -> & He)%elem_of_drop_duplicates%list_elem_of_fmap).
    exists e. by rewrite last_key_of.
  - intros (e & -> & He). exists (key_of (columns ++ [c]) e).
    rewrite last_key_of. split; [done|].
    apply elem_of_drop_duplicates, list_elem_of_fmap. eauto.
Qed.

Lemma elem_of_merge_outer_fillna by_loc c_df ch_df r :
  r ∈ merge_outer_fillna by_loc c_df ch_df ↔
  (hs_key r ∈ by_loc <$> c_df ∨ hs_key r ∈ ch_df.*1) ∧
  hs_changes r = from_option Z.of_nat 0%Z (lookup_count ch_df (hs_key r)) ∧
  match hs_loc r with
  | Some l => l ∈ c_df ∧ by_loc l = hs_key r
  | None => hs_key r ∉ by_loc <$> c_df
  end.
Proof.
  unfold merge_outer_fillna. rewrite list_elem_of_bind.
  setoid_rewrite merge_sort_Permutation.
  setoid_rewrite elem_of_drop_duplicates. setoid_rewrite elem_of_app.
  split.
  - intros (k & Hr & Hk).
    destruct (group by_loc c_df k) as [|l0 rows] eqn:Hg.
    + apply list_elem_of_singleton in Hr as ->. simpl.
      split; [done|]. split; [done|].
      intros (l & -> & Hl)%list_elem_of_fmap.
      assert (Hin : l ∈ group by_loc c_df (by_loc l)) by by apply elem_of_group.
      rewrite Hg in Hin. by apply elem_of_nil in Hin.
    + apply list_elem_of_fmap in Hr as (l & -> & Hl). simpl.
      rewrite <- Hg in Hl. apply elem_of_group in Hl as [Hl Hkl].
      split; [done|]. split; [done|]. done.
  - destruct r as [k [l|] n]; simpl; intros (Hk & -> & Hl).
    + exists k. split; [|done]. destruct Hl as [Hl <-].
      assert (Hin : l ∈ group by_loc c_df (by_loc l)) by by apply elem_of_group.
      destruct (group by_loc c_df (by_loc l)) as [|l0 rows] eqn:Hg;
        [by apply elem_of_nil in Hin|].
      by apply (list_elem_of_fmap_2
                  (λ l1, mkHotSpot (by_loc l) (Some l1) _) (l0 :: rows)).
    + exists k. split; [|done].
      destruct (group by_loc c_df k) as [|l0 rows] eqn:Hg; [set_solver|].
      exfalso. apply Hl. apply list_elem_of_fmap. exists l0.
      assert (Hin : l0 ∈ group by_loc c_df k) by (rewrite Hg; left).
      apply elem_of_group in Hin as [? ?]. done.
Qed.

End hot_spots_facts.

(** C9. [get_hot_spots] keeps every row of [loc] and every path of the log:
    a key found only in [loc] has [changes] 0, a key found only in the log
    has [lines] 0 (no row of [loc] stands behind it), and no other key
    appears. The changes of a key are its distinct combinations with the
    columns of [count_one_change_per]. *)
Theorem get_hot_spots_spec (log : list scm.LogEntry) (loc : list core.LocRow)
    (by_ : option (core.Column * (core.LocRow → string)))
    (count_one_change_per : option (list core.Column)) :
  let out := core.get_hot_spots log loc by_ count_one_change_per in
  let by_log := (default (scm.path, core.loc_path) by_).1 in
  let by_loc := (default (scm.path, core.loc_path) by_).2 in
  let columns := default [scm.revision] count_one_change_per ++ [by_log] in
  (∀ l, l ∈ loc →
     ∃ r, r ∈ out ∧ core.hs_key r = by_loc l ∧ core.hs_loc r = Some l ∧
          core.lines r = core.code l) ∧
  (∀ e, e ∈ log → ∃ r, r ∈ out ∧ core.hs_key r = by_log e) ∧
  (∀ r, r ∈ out →
     (core.hs_key r ∈ by_loc <$> loc ∨ core.hs_key r ∈ by_log <$> log) ∧
     core.hs_changes r
     = Z.of_nat (length (filter (λ k, k = core.hs_key r)
                                (core.changed log columns))) ∧
     (core.hs_key r ∉ by_log <$> log → core.hs_changes r = 0%Z) ∧
     (core.hs_key r ∈ by_log <$> log → (0 < core.hs_changes r)%Z) ∧
     (core.hs_key r ∉ by_loc <$> loc →
        core.hs_loc r = None ∧ core.lines r = 0%Z) ∧
     (∀ l, core.hs_loc r = Some l → l ∈ loc ∧ by_loc l = core.hs_key r)).
Proof.
  intros out by_log by_loc columns.
  assert (Hcount : ∀ k,
    from_option Z.of_nat 0%Z
      (core.lookup_count (core.change_counts log columns) k)
    = Z.of_nat (length (filter (λ x, x = k) (core.changed log columns)))).
  { intros k. unfold core.change_counts.
    rewrite lookup_value_counts. destruct (decide _) as [|Hk]; [done|]. simpl.
    rewrite filter_none; [done|]. by intros ? ? ->. }
  assert (Hkeys : ∀ k,
    k ∈ (core.change_counts log columns).*1 ↔ k ∈ by_log <$> log).
  { intros k. unfold core.change_counts.
    rewrite value_counts_keys, elem_of_drop_duplicates.
    apply elem_of_changed. }
  assert (Hout : ∀ r, r ∈ out ↔
    (core.hs_key r ∈ by_loc <$> loc ∨ core.hs_key r ∈ by_log <$> log) ∧
    core.hs_changes r
    = Z.of_nat (length (filter (λ x, x = core.hs_key r) (core.changed log columns))) ∧
    match core.hs_loc r with
    | Some l => l ∈ loc ∧ by_loc l = core.hs_key r
    | None => core.hs_key r ∉ by_loc <$> loc
    end).
  { intros r. subst out. unfold core.get_hot_spots.
    rewrite elem_of_merge_outer_fillna. fold by_log by_loc columns.
    by rewrite Hcount, Hkeys. }
  split; [|split].
  - intros l Hl.
    exists (core.mkHotSpot (by_loc l) (Some l)
              (Z.of_nat (length (filter (λ x, x = by_loc l)
                                        (core.changed log columns))))).
    split; [|done]. apply Hout. simpl. split; [|done].
    left. apply list_elem_of_fmap. eauto.
  - intros e He.
    destruct (pandas.group by_loc loc (by_log e)) as [|l rows] eqn:Hg.
    + exists (core.mkHotSpot (by_log e) None
                (Z.of_nat (length (filter (λ x, x = by_log e)
                                          (core.changed log columns))))).
      split; [|done]. apply Hout. simpl.
      split; [right; apply list_elem_of_fmap; eauto|]. split; [done|].
      intros (l & Hk & Hl)%list_elem_of_fmap.
      assert (Hin : l ∈ pandas.group by_loc loc (by_log e))
        by by apply elem_of_group.
      rewrite Hg in Hin. by apply elem_of_nil in Hin.
    + assert (Hin : l ∈ pandas.group by_loc loc (by_log e))
        by (rewrite Hg; left).
      apply elem_of_group in Hin as [Hl Hk].
      exists (core.mkHotSpot (by_log e) (Some l)
                (Z.of_nat (length (filter (λ x, x = by_log e)
                                          (core.changed log columns))))).
      split; [|done]. apply Hout. simpl.
      split; [right; apply list_elem_of_fmap; eauto|]. done.
  - intros r (Hk & Hn & Hl)%Hout. split; [done|]. split; [done|].
    split; [|split; [|split]].
    + intros Hnin. rewrite Hn, filter_none; [done|].
      intros k Hin ->. apply Hnin. subst columns.
      by apply elem_of_changed in Hin.
    + intros Hin. rewrite Hn.
      assert (1 ≤ length (filter (λ x, x = core.hs_key r) (core.changed log columns)));
        [|lia].
      apply length_filter_eq_elem. subst columns. by apply elem_of_changed.
    + intros Hnin. unfold core.lines. destruct (core.hs_loc r) as [l|]; [|done].
      destruct Hl as [Hl Hkl]. exfalso. apply Hnin, list_elem_of_fmap. eauto.
    + intros l Hl'. by rewrite Hl' in Hl.
Qed.

Lemma get_hot_spots_spec_witness :
  let l := core.mkLocRow "C" "z" 4 5 60 in
  l ∈ examples.loc_report ∧
  ∃ r, r ∈ core.get_hot_spots examples.scenario examples.loc_report None None ∧
       core.hs_key r = "z" ∧ core.hs_loc r = Some l ∧ core.lines r = 60%Z.
Proof.
  assert (H : core.mkLocRow "C" "z" 4 5 60 ∈ examples.loc_report)
    by (right; left).
  split; [exact H|].
  exact (proj1 (get_hot_spots_spec examples.scenario examples.loc_report
                  None None) _ H).
Defined.

(** ** The frames as objects *)

Section objects_facts.
Import objects.
Implicit Types (h : Store) (f : Frame).

Lemma run_bind {A B} (m : M A) (k : A → M B) h a h' :
  m h = (Ok a, h') → (m ≫= k) h = k a h'.
Proof. unfold mbind, M_bind. by intros ->. Qed.

Lemma run_get h l f : h !! l = Some f → get l h = (Ok f, h).
Proof. unfold get. by intros ->. Qed.

Lemma run_get_log h l rows : h !! l = Some (Log rows) → get_log l h = (Ok rows, h).
Proof. intros Hl. unfold get_log. by erewrite run_bind by by apply run_get. Qed.

Lemma run_get_loc h l c rows :
  h !! l = Some (Loc c rows) → get_loc l h = (Ok rows, h).
Proof. intros Hl. unfold get_loc. by erewrite run_bind by by apply run_get. Qed.

Lemma run_new h f : new f h = (Ok (length h), h ++ [f]).
Proof. done. Qed.

Lemma run_update h l op : update l op h = (Ok (), alter op l h).
Proof. done. Qed.

(** A change in place of the object created last. *)
Lemma alter_last h f (op : Frame → Frame) :
  alter op (length h) (h ++ [f]) = h ++ [op f].
Proof.
  rewrite <- (Nat.add_0_r (length h)). by rewrite (alter_app_r op h [f] 0).
Qed.

Lemma lookup_last h f : (h ++ [f]) !! length h = Some f.
Proof. apply list_lookup_middle. done. Qed.

Lemma lookup_old h f l f' : h !! l = Some f' → (h ++ [f]) !! l = Some f'.
Proof. apply lookup_app_l_Some. Qed.

Lemma unchanged_refl h : unchanged h h.
Proof. by intros l f. Qed.

Lemma unchanged_new h h' f : unchanged h h' → unchanged h (h' ++ [f]).
Proof. intros Hh l f' Hl. by apply lookup_old, Hh. Qed.

Lemma lookup_fresh h h' : unchanged h h' → h !! length h' = None.
Proof.
  intros Hh. apply eq_None_not_Some. intros [f Hf].
  apply Hh, lookup_lt_Some in Hf. lia.
Qed.

Lemma returns_new_intro h h' f :
  unchanged h h' → returns_new h (Ok (length h'), h' ++ [f]) f.
Proof.
  intros Hh. exists (length h'). simpl. split; [done|].
  split; [by apply lookup_fresh|]. split; [apply lookup_last|].
  by apply unchanged_new.
Qed.

End objects_facts.

Create HintDb store.
#[local] Hint Resolve run_get run_get_log run_get_loc run_new run_update
  lookup_last lookup_old unchanged_refl unchanged_new : store.

(** One step of a program: the first computation of a bind runs. *)
#[local] Ltac step :=
  erewrite run_bind by eauto 10 with store; rewrite ?alter_last.



(** * Further properties of the code *)

(** ** Strings *)

Section string_facts.

Lemma string_app_cons x (a b : string) :
  String x a +:+ b = String x (a +:+ b).
Proof. done. Qed.

Lemma string_app_nil_l (b : string) : "" +:+ b = b.
Proof. done. Qed.

Lemma string_app_assoc (a b c : string) : (a +:+ b) +:+ c = a +:+ (b +:+ c).
Proof.
  induction a as [|x a IH]; [done|]. by rewrite !string_app_cons, IH.
Qed.

Lemma list_ascii_app (a b : string) :
  list_ascii_of_string (a +:+ b)
  = list_ascii_of_string a ++ list_ascii_of_string b.
Proof.
  induction a as [|x a IH]; [done|]. rewrite string_app_cons. simpl.
  by rewrite IH.
Qed.

Lemma has_char_app c (a b : string) :
  has_char c (a +:+ b) ↔ has_char c a ∨ has_char c b.
Proof. unfold has_char. by rewrite list_ascii_app, elem_of_app. Qed.

Lemma has_char_cons c x (s : string) :
  has_char c (String x s) ↔ c = x ∨ has_char c s.
Proof. unfold has_char. simpl. by rewrite elem_of_cons. Qed.

Lemma strip_prefix_Some (p s rest : string) :
  strip_prefix p s = Some rest ↔ s = p +:+ rest.
Proof.
  revert s. induction p as [|a p IH]; intros s; simpl.
  { rewrite string_app_nil_l. split; [by intros [= ->] | by intros ->]. }
  rewrite string_app_cons. destruct s as [|b s]; [by split|].
  destruct (Ascii.eqb_spec a b) as [->|Hne].
  - rewrite IH. split; [by intros -> | by intros [= ->]].
  - split; [done | by intros [= ? ?]].
Qed.

Lemma split_no_sep sep (s : string) :
  Forall (λ l, ¬ has_char sep l) (split sep s).
Proof.
  induction s as [|c s IH]; simpl.
  { constructor; [|done]. unfold has_char. simpl. apply not_elem_of_nil. }
  destruct (Ascii.eqb_spec c sep) as [->|Hne].
  - constructor; [|done]. unfold has_char. simpl. apply not_elem_of_nil.
  - destruct (split sep s) as [|l ls].
    + constructor; [|done]. rewrite has_char_cons. unfold has_char. simpl.
      rewrite elem_of_nil. naive_solver.
    + apply Forall_cons in IH as [Hl Hls]. constructor; [|done].
      rewrite has_char_cons. naive_solver.
Qed.

Lemma split_no_sep_id sep (s : string) : ¬ has_char sep s → split sep s = [s].
Proof.
  induction s as [|c s IH]; [done|]. rewrite has_char_cons. intros Hs. simpl.
  destruct (Ascii.eqb_spec c sep) as [->|Hne]; [naive_solver|].
  rewrite IH by naive_solver. done.
Qed.

End string_facts.

(** ** process_log_entries *)

Section process_log_entries_facts.
Import svn.
Variable to_date : string → result Z.
Variable fromstring : string → result ET.Element.
Variable self : _SvnLogCollector.

Lemma prefix_nonempty (p line : string) :
  p ≠ "" → String.prefix p line = true → line ≠ "".
Proof. destruct p; [done|]. by destruct line. Qed.

Lemma close_not_open (line : string) :
  String.prefix "</logentry>" line = true →
  String.prefix "<logentry" line = false.
Proof.
  destruct line as [|a [|b line]]; [done| |]; cbn [String.prefix].
  - by destruct (ascii_dec "<" a).
  - destruct (ascii_dec "<" a); [|done].
    destruct (ascii_dec "/" b) as [<-|]; [|done]. intros _.
    by destruct (ascii_dec "l" "/").
Qed.

Lemma string_app_nonempty (a b : string) : a ≠ "" → a +:+ b ≠ "".
Proof. by destruct a. Qed.

(** Lines are skipped until one opens an entry. *)
Lemma process_lines_skip pre xml :
  Forall (λ l, String.prefix "<logentry" l = false) pre →
  process_lines to_date fromstring self "" (pre ++ xml)
  = process_lines to_date fromstring self "" xml.
Proof.
  induction 1 as [|l pre Hl _ IH]; [done|]. simpl. by rewrite Hl.
Qed.

(** The buffer takes every line up to the first that closes the entry. *)
Lemma process_lines_buffer buf body last rest :
  buf ≠ "" →
  Forall (λ l, String.prefix "</logentry>" l = false) body →
  String.prefix "</logentry>" last = true →
  process_lines to_date fromstring self buf (body ++ last :: rest)
  = let r := process_entry_text to_date fromstring self
               (buf +:+ foldr String.append "" body +:+ last) in
    match raised r with
    | Some _ => r
    | None => then_run r (process_lines to_date fromstring self "" rest)
    end.
Proof.
  intros Hbuf Hbody Hlast. revert buf Hbuf.
  induction Hbody as [|l body Hl _ IH]; intros buf Hbuf.
  - simpl. rewrite (close_not_open last Hlast), Hlast. simpl.
    apply String.eqb_neq in Hbuf. by rewrite Hbuf.
  - cbn [app process_lines foldr]. rewrite Hl. simpl.
    pose proof Hbuf as Hne%String.eqb_neq. rewrite Hne.
    rewrite (string_app_assoc l), <- (string_app_assoc buf l).
    destruct (String.prefix "<logentry" l);
      apply IH; by apply string_app_nonempty.
Qed.

End process_log_entries_facts.

(** [process_log_entries] frames the entries of the stream. The lines before
    one that starts with "<logentry" are skipped; from that line to the first
    that starts with "</logentry>" the lines are joined as they are, without
    anything between them, and the text is processed as one entry. An
    exception in it ends the stream; otherwise the rest of the stream
    follows. *)
Theorem process_log_entries_frame
    (to_date : string → result Z) (fromstring : string → result ET.Element)
    (self : svn._SvnLogCollector) (pre : list string) (first : string)
    (body : list string) (last : string) (rest : list string) :
  Forall (λ l, String.prefix "<logentry" l = false) pre →
  String.prefix "<logentry" first = true →
  Forall (λ l, String.prefix "</logentry>" l = false) body →
  String.prefix "</logentry>" last = true →
  svn.process_log_entries to_date fromstring self
    (pre ++ first :: body ++ last :: rest)
  = let r := svn.process_entry_text to_date fromstring self
               (first +:+ foldr String.append "" body +:+ last) in
    match svn.raised r with
    | Some _ => r
    | None => svn.then_run r
                (svn.process_log_entries to_date fromstring self rest)
    end.
Proof.
  intros Hpre Hfirst Hbody Hlast. unfold svn.process_log_entries.
  rewrite process_lines_skip by done. cbn [svn.process_lines].
  rewrite Hfirst, string_app_nil_l. apply process_lines_buffer; [|done..].
  by apply (prefix_nonempty "<logentry").
Qed.

Lemma process_log_entries_frame_witness :
  svn.process_log_entries examples.to_date0 examples.fromstring0
    examples.collector examples.log_lines
  = svn.process_entry_text examples.to_date0 examples.fromstring0
      examples.collector "<logentry   revision=1><date>2019</date></logentry>".
Proof.
  exact (process_log_entries_frame examples.to_date0 examples.fromstring0
           examples.collector ["<?xml version=1.0?>"; "<log>"] "<logentry"
           ["   revision=1>"; "<date>2019</date>"] "</logentry>" ["</log>"]
           ltac:(by repeat constructor) eq_refl
           ltac:(by repeat constructor) eq_refl).
Defined.

(** An entry that is never closed is dropped without notice: a stream with
    no line starting with "</logentry>" yields nothing and raises nothing,
    whatever the parser would make of its text. *)
Theorem process_log_entries_unclosed
    (to_date : string → result Z) (fromstring : string → result ET.Element)
    (self : svn._SvnLogCollector) (xml : list string) :
  Forall (λ l, String.prefix "</logentry>" l = false) xml →
  svn.process_log_entries to_date fromstring self xml = svn.mkRun [] [] None.
Proof.
  intros Hxml. unfold svn.process_log_entries.
  generalize "" as buf. induction Hxml as [|l xml Hl _ IH]; intros buf; [done|].
  simpl. rewrite Hl. simpl. by repeat case_match.
Qed.

Lemma process_log_entries_unclosed_witness :
  svn.process_log_entries examples.to_date0 examples.fromstring0
    examples.collector ["<log>"; "<logentry"; "   revision=1>"; "<msg>"]
  = svn.mkRun [] [] None.
Proof.
  exact (process_log_entries_unclosed examples.to_date0 examples.fromstring0
           examples.collector ["<log>"; "<logentry"; "   revision=1>"; "<msg>"]
           ltac:(by repeat constructor)).
Defined.

(** ** update_urls *)

Section update_urls_facts.
Import svn.

Lemma strip_prefix_no_char c (p line rest : string) :
  strip_prefix p line = Some rest → ¬ has_char c line → ¬ has_char c rest.
Proof.
  intros ->%strip_prefix_Some Hline Hrest. apply Hline, has_char_app. by right.
Qed.

(** On a line without line feed the pattern matches what follows the
    text "Relative URL: ^", whole. *)
Lemma match_relative_url_line (line : string) :
  ¬ has_char LF line →
  match_relative_url line = strip_prefix "Relative URL: ^" line.
Proof.
  intros Hline. unfold match_relative_url.
  destruct (strip_prefix "Relative URL: ^" line) as [rest|] eqn:Hp; [|done].
  simpl. rewrite split_no_sep_id; [done|]. by eapply strip_prefix_no_char.
Qed.

Lemma first_relative_url_found pre line post url :
  Forall (λ l, ¬ has_char LF l) (pre ++ line :: post) →
  Forall (λ l, strip_prefix "Relative URL: ^" l = None) pre →
  strip_prefix "Relative URL: ^" line = Some url →
  first_relative_url (pre ++ line :: post) = Some url.
Proof.
  intros Hlf Hpre Hline. induction Hpre as [|l pre Hl _ IH]; simpl.
  - apply Forall_cons in Hlf as [Hlf _].
    by rewrite match_relative_url_line, Hline.
  - apply Forall_cons in Hlf as [Hlf Hlfs].
    rewrite match_relative_url_line, Hl by done. by apply IH.
Qed.

Lemma first_relative_url_none lines :
  Forall (λ l, ¬ has_char LF l) lines →
  Forall (λ l, strip_prefix "Relative URL: ^" l = None) lines →
  first_relative_url lines = None.
Proof.
  intros Hlf Hnone. induction Hnone as [|l lines Hl _ IH]; [done|]. simpl.
  apply Forall_cons in Hlf as [Hlf Hlfs].
  rewrite match_relative_url_line, Hl by done. by apply IH.
Qed.

End update_urls_facts.

(** [update_urls] keeps a relative URL that is set and not empty, without
    looking at the output of the client. Otherwise it takes, from the first
    line of the output that starts with "Relative URL: ^", all that follows
    the caret, a final slash included; where no line starts so, the field
    stays as it was. *)
Theorem update_urls_spec (_relative_url : option string) (info : string) :
  (∀ c url, _relative_url = Some (String c url) →
            svn.update_urls _relative_url info = _relative_url) ∧
  (_relative_url = None ∨ _relative_url = Some "" →
   (∀ pre line post url,
      split LF info = pre ++ line :: post →
      Forall (λ l, strip_prefix "Relative URL: ^" l = None) pre →
      line = "Relative URL: ^" +:+ url →
      svn.update_urls _relative_url info = Some url) ∧
   (Forall (λ l, strip_prefix "Relative URL: ^" l = None) (split LF info) →
    svn.update_urls _relative_url info = _relative_url)).
Proof.
  split; [by intros c url ->|]. intros Hfield.
  assert (Hupd : svn.update_urls _relative_url info
    = match svn.first_relative_url (split LF info) with
      | Some url => Some url
      | None => _relative_url
      end) by by destruct Hfield as [-> | ->].
  rewrite Hupd. split.
  - intros pre line post url Hsplit Hpre Hline. rewrite Hsplit.
    erewrite first_relative_url_found; [done| |done|].
    + rewrite <- Hsplit. apply split_no_sep.
    + by apply strip_prefix_Some.
  - intros Hnone. by rewrite first_relative_url_none by (done || apply split_no_sep).
Qed.

Lemma update_urls_spec_witness :
  split LF examples.svn_info
  = ["Path: ."] ++ "Relative URL: ^/trunk/" :: ["Revision: 3"] ∧
  svn.update_urls None examples.svn_info = Some "/trunk/".
Proof.
  split; [reflexivity|].
  exact (proj1 (proj2 (update_urls_spec None examples.svn_info)
                  (or_introl eq_refl))
           ["Path: ."] "Relative URL: ^/trunk/" ["Revision: 3"] "/trunk/"
           eq_refl ltac:(by repeat constructor) eq_refl).
Defined.

(** Where neither the caller nor the client gives a relative URL (the
    output of [svn info] has no line starting with "Relative URL: ^"), the
    property [relative_url] is [None] and [process_entry] raises a TypeError
    for every entry that has its revision, with or without paths, and yields
    nothing. *)
Theorem process_entry_without_relative_url
    (to_date : string → result Z) (self : svn._SvnLogCollector)
    (info : string) (elem : ET.Element) :
  Forall (λ l, strip_prefix "Relative URL: ^" l = None) (split LF info) →
  svn.relative_url self = svn.relative_url_property None info →
  is_Some (ET.attrib elem !! "revision") →
  svn.process_entry to_date self elem
  = svn.mkRun [] [] (Some (TypeError
      "unsupported operand type(s) for +: 'NoneType' and 'str'")).
Proof.
  intros Hnone Hself [rev Hrev]. unfold svn.process_entry. rewrite Hrev, Hself.
  unfold svn.relative_url_property, svn.update_urls.
  by rewrite first_relative_url_none by (done || apply split_no_sep).
Qed.

Lemma process_entry_without_relative_url_witness :
  svn.process_entry examples.to_date0
    {| svn.svn_client := "svn"; svn.self_path := ".";
       svn.relative_url := None |} examples.regular_entry
  = svn.mkRun [] [] (Some (TypeError
      "unsupported operand type(s) for +: 'NoneType' and 'str'")).
Proof.
  exact (process_entry_without_relative_url examples.to_date0
           {| svn.svn_client := "svn"; svn.self_path := ".";
              svn.relative_url := None |}
           examples.svn_info_old examples.regular_entry
           ltac:(vm_compute; by repeat constructor) eq_refl
           ltac:(vm_compute; eauto)).
Defined.


(** ** process_entry: no entry is ever yielded *)

(** [process_entry] never yields an entry and never logs a warning: the
    call that makes the entry passes [copyfromrev] and [copyfrompath], which
    the [LogEntry] of [scm.py] does not have, so every path element ends the
    run with an exception, the TypeError of that call or one raised before
    it. The run ends without exception exactly when the entry has its
    revision, the relative URL is known and the entry has no path element. *)
Theorem process_entry_never_yields
    (to_date : string → result Z) (self : svn._SvnLogCollector)
    (elem : ET.Element) :
  let r := svn.process_entry to_date self elem in
  svn.yielded r = [] ∧ svn.warnings r = [] ∧
  (svn.raised r = None ↔
   is_Some (ET.attrib elem !! "revision") ∧
   is_Some (svn.relative_url self) ∧
   ET.findall_in_children elem "path" = []).
Proof.
  cbv zeta. unfold svn.process_entry.
  destruct (ET.attrib elem !! "revision") as [rev|]; simpl.
  2: { split; [done|]. split; [done|]. split; [done|]. by intros [[? ?] _]. }
  destruct (svn.relative_url self) as [url|]; simpl.
  2: { split; [done|]. split; [done|]. split; [done|]. by intros (_ & [? ?] & _). }
  split; [apply process_paths_yielded|]. split; [apply process_paths_warnings|].
  rewrite process_paths_raised. naive_solver.
Qed.

Lemma process_entry_never_yields_witness :
  let r := svn.process_entry examples.to_date0 examples.collector
                             examples.regular_entry in
  svn.yielded r = [] ∧ svn.warnings r = [] ∧ svn.raised r ≠ None.
Proof.
  destruct (process_entry_never_yields examples.to_date0 examples.collector
              examples.regular_entry) as (Hy & Hw & Hr).
  split; [exact Hy|]. split; [exact Hw|].
  intros (_ & _ & Hp)%Hr. vm_compute in Hp. discriminate Hp.
Defined.

(** An entry that is as the client writes it, with its revision, a date
    that converts and a first path element with a text and flags that
    [to_bool] accepts, ends the run with the TypeError of the call of
    [scm.LogEntry], for its keyword [copyfromrev]; nothing is yielded. *)
Theorem process_entry_unexpected_keyword
    (to_date : string → result Z) (self : svn._SvnLogCollector)
    (elem : ET.Element) (rev url d : string) (t : Z)
    (pe : ET.Element) (rest : list ET.Element) (tm pm : bool) :
  ET.attrib elem !! "revision" = Some rev →
  svn.relative_url self = Some url →
  svn._extract elem "date" (Some "raise") = Some d →
  to_date d = Ok t →
  ET.findall_in_children elem "path" = pe :: rest →
  is_Some (ET.text pe) →
  svn.to_bool (svn.other pe "text-mods") = Ok tm →
  svn.to_bool (svn.other pe "prop-mods") = Ok pm →
  ∃ pre,
    svn.process_entry to_date self elem
    = svn.mkRun [] [] (Some (TypeError
        (pre +:+ "__new__() got an unexpected keyword argument 'copyfromrev'"))).
Proof.
  intros Hrev Hurl Hd Ht Hpaths [txt Htxt] Htm Hpm. exists "".
  unfold svn.process_entry. rewrite Hrev, Hurl, Hd, Hpaths. simpl.
  unfold svn.try_path, svn.path_text. rewrite Htxt. simpl.
  rewrite Ht. simpl. rewrite Htm. simpl. rewrite Hpm. reflexivity.
Qed.

Lemma process_entry_unexpected_keyword_witness :
  ∃ pre,
    svn.process_entry examples.to_date0 examples.collector
      examples.regular_entry
    = svn.mkRun [] [] (Some (TypeError
        (pre +:+ "__new__() got an unexpected keyword argument 'copyfromrev'"))).
Proof.
  exact (process_entry_unexpected_keyword examples.to_date0 examples.collector
           examples.regular_entry "1" "/trunk" "2019-01-01T00:00:00.000000Z"
           0%Z (examples.path_elem examples.all_attrs (Some "/trunk/a.py")) []
           true false eq_refl eq_refl eq_refl eq_refl eq_refl
           ltac:(vm_compute; eauto) eq_refl eq_refl).
Defined.

(** ** _ScmLogCollector.__init__ *)



(** ** Sorted keys *)

Section sorted_facts.
Import pandas.
Context {K : Type} `{EqDecision K} (R : relation K) `{!RelDecision R}.
Context `{!PartialOrder R, !Total R}.

(** The sorted list of the distinct elements depends on the elements only. *)
Lemma sorted_distinct_ext (l l' : list K) :
  (∀ x, x ∈ l ↔ x ∈ l') →
  merge_sort R (drop_duplicates l) = merge_sort R (drop_duplicates l').
Proof.
  intros Hl. apply (Sorted_unique R); [apply Sorted_merge_sort, _..|].
  rewrite !merge_sort_Permutation.
  apply NoDup_Permutation; [apply NoDup_drop_duplicates..|].
  intros x. by rewrite !elem_of_drop_duplicates.
Qed.

Lemma group_keys_ext {A} (key : A → K) (l l' : list A) :
  (∀ k, k ∈ key <$> l ↔ k ∈ key <$> l') →
  group_keys R key l = group_keys R key l'.
Proof. apply sorted_distinct_ext. Qed.

Lemma StronglySorted_group_keys {A} (key : A → K) (l : list A) :
  StronglySorted R (group_keys R key l).
Proof. apply StronglySorted_merge_sort; apply _. Qed.

End sorted_facts.

(** ** get_mass_change_sets: what is counted, and in which order *)

Section mass_change_more.
Import scm pandas core.

Lemma StronglySorted_fmap_filter {A B} (R : relation B) (f : A → B)
    (P : A → Prop) `{!∀ x, Decision (P x)} (l : list A) :
  StronglySorted R (f <$> l) → StronglySorted R (f <$> filter P l).
Proof.
  induction l as [|x l IH]; [done|]. rewrite fmap_cons, StronglySorted_cons.
  intros [Hx Hl]. rewrite filter_cons. destruct (decide (P x)); [|by apply IH].
  rewrite fmap_cons. apply StronglySorted_cons. split; [|by apply IH].
  apply Forall_forall. intros y (z & -> & [_ Hz]%list_elem_of_filter)%list_elem_of_fmap.
  rewrite Forall_forall in Hx. apply Hx, list_elem_of_fmap. eauto.
Qed.

Lemma StronglySorted_merge_on_revision left right :
  StronglySorted String.le left.*1 →
  StronglySorted String.le (mc_revision <$> merge_on_revision left right).
Proof.
  unfold merge_on_revision. induction left as [|[rev n] left IH]; [constructor|].
  rewrite fmap_cons, StronglySorted_cons. intros [Hrev Hleft].
  rewrite bind_cons, fmap_app. apply StronglySorted_app_2; [| |by apply IH].
  - intros r1 r2 (m1 & -> & Hm1)%list_elem_of_fmap (m2 & -> & Hm2)%list_elem_of_fmap.
    apply list_elem_of_bind in Hm1 as ([[? ?] ?] & ->%list_elem_of_singleton & _).
    apply (elem_of_merge_on_revision left right) in Hm2 as [Hm2 _]. simpl.
    rewrite Forall_forall in Hrev. apply Hrev, list_elem_of_fmap.
    by exists (mc_revision m2, path_count m2).
  - generalize (filter (λ t : string * option string * option string,
                          t.1.1 = rev) right).
    intros matches. induction matches as [|[[? ?] ?] matches IHm]; [constructor|].
    rewrite bind_cons. simpl. constructor; [done|].
    apply Forall_forall. intros r (m & -> & Hm)%list_elem_of_fmap.
    apply list_elem_of_bind in Hm as ([[? ?] ?] & ->%list_elem_of_singleton & _).
    done.
Qed.

End mass_change_more.

(** [get_mass_change_sets] counts the rows of a revision, a row that is
    repeated as often as it is there; every revision it returns has more
    rows than [min_changes]; a higher threshold returns a part of the rows,
    in the same order; and the rows are in ascending order of revision,
    compared as text. *)
Theorem get_mass_change_sets_rows (log : list scm.LogEntry)
    (min_changes : Z) :
  let out := core.get_mass_change_sets log min_changes in
  (∀ m, m ∈ out →
     core.path_count m
     = length (filter (λ e, scm.revision e = core.mc_revision m) log) ∧
     (min_changes < Z.of_nat (core.path_count m))%Z) ∧
  (∀ higher, (min_changes ≤ higher)%Z →
     sublist (core.get_mass_change_sets log higher) out) ∧
  StronglySorted String.le (core.mc_revision <$> out).
Proof.
  cbv zeta. split; [|split].
  - intros m (Hk & Hn & _)%elem_of_get_mass_change_sets. done.
  - intros higher Hle. unfold core.get_mass_change_sets, core.massive,
      core.merge_on_revision.
    apply bind_sublist.
    assert (Hf : filter (λ rc : string * nat, (higher < Z.of_nat rc.2)%Z)
                   (core.count_by_revision log)
      = filter (λ rc : string * nat, (higher < Z.of_nat rc.2)%Z)
          (filter (λ rc : string * nat, (min_changes < Z.of_nat rc.2)%Z)
             (core.count_by_revision log))).
    { rewrite list_filter_filter. apply list_filter_iff. intros rc. lia. }
    rewrite Hf. apply sublist_filter.
  - apply StronglySorted_merge_on_revision.
    apply (StronglySorted_fmap_filter String.le fst).
    unfold core.count_by_revision, pandas.groupby_count.
    rewrite <- list_fmap_compose.
    erewrite list_fmap_ext; [rewrite list_fmap_id|by intros].
    apply (StronglySorted_group_keys String.le).
Qed.

Lemma get_mass_change_sets_rows_witness :
  let m := core.mkMassChange "1" 2 (Some "change 1") (Some "alice") in
  m ∈ core.get_mass_change_sets examples.logged_twice 1 ∧
  core.path_count m
  = length (filter (λ e, scm.revision e = "1") examples.logged_twice).
Proof.
  assert (H : core.mkMassChange "1" 2 (Some "change 1") (Some "alice")
              ∈ core.get_mass_change_sets examples.logged_twice 1)
    by (vm_compute; left).
  split; [exact H|].
  exact (proj1 (proj1 (get_mass_change_sets_rows examples.logged_twice 1)
                  _ H)).
Defined.

(** ** get_ages: only the latest change counts *)

Section ages_more.
Import scm pandas core.

Lemma max_date_app_older (l older : list Z) :
  l ≠ [] →
  (∀ x, x ∈ older → ∃ y, y ∈ l ∧ (x ≤ y)%Z) →
  max_date (l ++ older) = max_date l.
Proof.
  intros Hne Holder. apply Z.le_antisymm.
  - assert (Hin : max_date (l ++ older) ∈ l ++ older).
    { apply max_date_elem. by destruct l. }
    apply elem_of_app in Hin as [Hin|Hin]; [by apply max_date_ge|].
    destruct (Holder _ Hin) as (y & Hy & Hle).
    etrans; [exact Hle|]. by apply max_date_ge.
  - apply max_date_ge, elem_of_app. left. by apply max_date_elem.
Qed.

End ages_more.

(** Rows that are not newer than a row of the same group already in the
    table do not change the ages: [get_ages] gives the same result with them
    as without. *)
Theorem get_ages_older_rows (now : Z) (data older : list scm.LogEntry)
    (by_ : option (list core.Column)) :
  (∀ e, e ∈ older →
     ∃ e', e' ∈ data ∧
           core.key_of (default [scm.path] by_) e'
           = core.key_of (default [scm.path] by_) e ∧
           (scm.date e ≤ scm.date e')%Z) →
  core.get_ages now (data ++ older) by_ = core.get_ages now data by_.
Proof.
  intros Holder. unfold core.get_ages.
  set (cols := default [scm.path] by_) in *.
  destruct (decide (cols = [])) as [->|Hcols]; [done|].
  rewrite !max_dates_ok by done. do 2 f_equal.
  assert (Hkeys : pandas.group_keys pandas.key_le (core.key_of cols)
                    (data ++ older)
                  = pandas.group_keys pandas.key_le (core.key_of cols) data).
  { apply (group_keys_ext pandas.key_le). intros k.
    rewrite fmap_app, elem_of_app, !list_elem_of_fmap. split; [|eauto].
    intros [?|(e & -> & He)]; [done|].
    destruct (Holder e He) as (e' & He' & Hk & _). eauto. }
  rewrite Hkeys. apply Forall_fmap_ext, Forall_forall. intros k Hk. f_equal.
  unfold pandas.group. rewrite filter_app, fmap_app.
  apply max_date_app_older.
  - apply (group_nonempty pandas.key_le) in Hk. unfold pandas.group in Hk.
    intros Hnil%fmap_nil_inv. rewrite Hnil in Hk. simpl in Hk. lia.
  - intros x (e & -> & [Hke He]%list_elem_of_filter)%list_elem_of_fmap.
    destruct (Holder e He) as (e' & He' & Hk' & Hle).
    exists (scm.date e'). split; [|done]. apply list_elem_of_fmap.
    exists e'. split; [done|]. apply list_elem_of_filter. split; [|done].
    congruence.
Qed.

Lemma get_ages_older_rows_witness :
  core.get_ages (4 * core.day)
    (examples.scenario ++ [examples.entry "0" 0 "a"]) None
  = core.get_ages (4 * core.day) examples.scenario None.
Proof.
  apply get_ages_older_rows.
  intros e ->%list_elem_of_singleton. exists (examples.entry "1" 1 "a").
  split; [left|]. split; [reflexivity|]. by vm_compute.
Defined.

(** ** get_co_changes: what the counts are *)

Section co_changes_more.
Import scm pandas core.
Implicit Types df : list (string * string).

Lemma length_filter_eq_decide {A} `{EqDecision A} (l : list A) x :
  NoDup l → length (filter (λ y, y = x) l) = if decide (x ∈ l) then 1 else 0.
Proof.
  intros Hnd. destruct (decide (x ∈ l)) as [Hx|Hx].
  - apply Nat.le_antisymm;
      [by apply length_filter_eq_NoDup | by apply length_filter_eq_elem].
  - rewrite filter_none; [done|]. by intros ? ? ->.
Qed.

(** The rows of a group of the self-join, counted over [df]. *)
Lemma joined_with_bind_count df (l : list (string * string)) p q :
  NoDup df →
  length (group pair_key (l ≫= joined_with df) [p; q])
  = length (filter (λ x, x.2 = p ∧ (x.1, q) ∈ df) l).
Proof.
  intros Hnd. induction l as [|[o p1] l IH]; [done|].
  rewrite bind_cons. unfold group in *. rewrite filter_app, length_app, IH.
  pose proof (joined_with_count df o p1 p q) as Hc. unfold group in Hc.
  rewrite Hc, filter_cons. simpl.
  destruct (decide (p1 = p)) as [->|Hne].
  - rewrite length_filter_eq_decide by done.
    destruct (decide ((o, q) ∈ df)).
    + by rewrite decide_True by done.
    + rewrite decide_False; [done|]. naive_solver.
  - rewrite decide_False; [done|]. naive_solver.
Qed.

Lemma self_join_count df p q :
  NoDup df →
  length (group pair_key (self_join df) [p; q])
  = length (filter (λ x, x.2 = p ∧ (x.1, q) ∈ df) df).
Proof.
  intros Hnd. unfold self_join. rewrite self_join_bind.
  by apply joined_with_bind_count.
Qed.

(** The same count over the distinct values of [on]. *)
Lemma self_join_count_on df (ons : list string) p q :
  NoDup df → NoDup ons → (∀ o, o ∈ df.*1 → o ∈ ons) →
  length (group pair_key (self_join df) [p; q])
  = length (filter (λ o, (o, p) ∈ df ∧ (o, q) ∈ df) ons).
Proof.
  intros Hnd Hons Hsub. rewrite self_join_count by done.
  rewrite <- (length_fmap fst). apply Permutation_length, NoDup_Permutation.
  - apply NoDup_fmap_2_strong; [|by apply NoDup_filter].
    intros [o1 p1] [o2 p2] [[H1 _] _]%list_elem_of_filter
      [[H2 _] _]%list_elem_of_filter Ho. simpl in *. congruence.
  - by apply NoDup_filter.
  - intros o. rewrite list_elem_of_fmap, list_elem_of_filter. split.
    + intros ([o' p'] & -> & [[Hp Hq] Hin]%list_elem_of_filter). simpl in *.
      subst p'. split; [done|]. apply Hsub, list_elem_of_fmap. by exists (o', p).
    + intros [[Hp Hq] _]. exists (o, p). split; [done|].
      by apply list_elem_of_filter.
Qed.

Lemma pair_key_in_keys df p q :
  [p; q] ∈ group_keys key_le pair_key (self_join df) ↔
  ∃ o, (o, p) ∈ df ∧ (o, q) ∈ df.
Proof.
  rewrite elem_of_group_keys. split.
  - intros ([[o p'] q'] & Hin & [= -> ->]). apply elem_of_self_join in Hin. eauto.
  - intros (o & Hp & Hq). exists (o, p, q). split; [|done].
    by apply elem_of_self_join.
Qed.

(** The rows of the result. *)
Lemma elem_of_get_co_changes log by_ on r :
  let df := pairs log (default path by_) (default revision on) in
  let count p q := length (group pair_key (self_join df) [p; q]) in
  r ∈ get_co_changes log by_ on ↔
  primary r ≠ dependency r ∧
  (∃ o, (o, primary r) ∈ df ∧ (o, dependency r) ∈ df) ∧
  changes r = count (primary r) (primary r) ∧
  cochanges r = count (primary r) (dependency r) ∧
  coupling r = (inject_Z (Z.of_nat (cochanges r))
                / inject_Z (Z.of_nat (changes r)))%Q.
Proof.
  cbv zeta. unfold get_co_changes, sort_by_coupling.
  rewrite merge_sort_Permutation, elem_of_set_coupling. split.
  - intros (p & n & q & c & Hin & ->). simpl.
    apply elem_of_joined in Hin as (Hself & Hcross & Hne).
    apply elem_of_pair_counts in Hself as [_ ->].
    apply elem_of_pair_counts in Hcross as [Hk ->].
    by apply pair_key_in_keys in Hk.
  - destruct r as [p q n c x]. simpl. intros (Hne & (o & Hp & Hq) & -> & -> & ->).
    eexists p, _, q, _. split; [|done]. apply elem_of_joined.
    split; [|split; [|done]]; apply elem_of_pair_counts; split; try done;
      apply pair_key_in_keys; eauto.
Qed.

Lemma elem_of_pairs log (by_ on : Column) o p :
  (o, p) ∈ pairs log by_ on ↔ (o, p) ∈ (λ e, (on e, by_ e)) <$> log.
Proof. unfold pairs. apply elem_of_drop_duplicates. Qed.

(** No two rows of the result have the same pair of values. *)
Lemma NoDup_get_co_changes_keys log by_ on :
  NoDup ((λ r, (primary r, dependency r)) <$> get_co_changes log by_ on).
Proof.
  set (df := pairs log (default path by_) (default revision on)).
  apply NoDup_fmap_2_strong.
  - intros [p1 q1 n1 c1 x1] [p2 q2 n2 c2 x2]
      (_ & _ & H1 & H2 & H3)%elem_of_get_co_changes
      (_ & _ & H4 & H5 & H6)%elem_of_get_co_changes [= -> ->].
    simpl in *. congruence.
  - unfold get_co_changes, sort_by_coupling.
    rewrite merge_sort_Permutation. unfold set_coupling.
    apply NoDup_fmap_2; [by intros [[[? ?] ?] ?] [[[? ?] ?] ?] [= -> -> -> ->]|].
    fold df. unfold joined.
    assert (Hsj : ∀ g1 g2, g1 ∈ pair_counts df →
      g2 ∈ pair_counts df → g1.1 = g2.1 → g1 = g2).
    { intros [[p1 q1] n1] [[p2 q2] n2] [_ ->]%elem_of_pair_counts
        [_ ->]%elem_of_pair_counts [= -> ->]. done. }
    assert (Hnd : NoDup (pair_counts df)).
    { unfold pair_counts, groupby_count.
      rewrite <- list_fmap_compose. apply NoDup_fmap_2_strong;
        [|apply NoDup_group_keys].
      intros k1 k2 ([[o1 x1] y1] & _ & <-)%elem_of_group_keys
        ([[o2 x2] y2] & _ & <-)%elem_of_group_keys [= -> -> _]. done. }
    apply NoDup_bind.
    + intros [[p1 ?] n1] [[p2 ?] n2] [[[p n] q] c]
        [Hs1 Hg1]%list_elem_of_filter [Hs2 Hg2]%list_elem_of_filter H1 H2.
      simpl in Hs1, Hs2. subst.
      apply list_elem_of_bind in H1 as ([[? ?] ?] & H1%list_elem_of_singleton & _).
      apply list_elem_of_bind in H2 as ([[? ?] ?] & H2%list_elem_of_singleton & _).
      injection H1 as -> -> _ _. injection H2 as -> -> _ _.
      by apply Hsj.
    + intros [[p1 ?] n1] _. apply NoDup_bind.
      * intros [[? q1] c1] [[? q2] c2] [[[p n] q] c]
          [Hp1 [_ Hg1]%list_elem_of_filter]%list_elem_of_filter
          [Hp2 [_ Hg2]%list_elem_of_filter]%list_elem_of_filter
          H1%list_elem_of_singleton H2%list_elem_of_singleton.
        simpl in Hp1, Hp2. subst. injection H1 as _ _ -> ->.
        injection H2 as _ _ -> ->. done.
      * intros [[? ?] ?] _. apply NoDup_singleton.
      * by do 2 apply NoDup_filter.
    + by apply NoDup_filter.
Qed.

(** The count of a pair is the count of the pair turned round. *)
Lemma self_join_count_sym df p q :
  NoDup df →
  length (group pair_key (self_join df) [p; q])
  = length (group pair_key (self_join df) [q; p]).
Proof.
  intros Hnd.
  rewrite !(self_join_count_on df (drop_duplicates df.*1));
    try done; try apply NoDup_drop_duplicates;
    try (intros o Ho; by apply elem_of_drop_duplicates).
  f_equal. apply list_filter_iff. tauto.
Qed.

(** The distinct pairs of two logs with the same pairs. *)
Lemma pairs_Permutation log log' (by_ on : Column) :
  (∀ x, x ∈ (λ e, (on e, by_ e)) <$> log ↔ x ∈ (λ e, (on e, by_ e)) <$> log') →
  pairs log by_ on ≡ₚ pairs log' by_ on.
Proof.
  intros H. apply NoDup_Permutation; try apply NoDup_drop_duplicates.
  intros [o p]. by rewrite !elem_of_pairs.
Qed.

Lemma self_join_count_Permutation df df' p q :
  NoDup df → df ≡ₚ df' →
  length (group pair_key (self_join df) [p; q])
  = length (group pair_key (self_join df') [p; q]).
Proof.
  intros Hnd Hp.
  assert (Hnd' : NoDup df') by by rewrite <- Hp.
  rewrite !self_join_count by done.
  rewrite <- Hp. f_equal. apply list_filter_iff.
  intros x. by rewrite Hp.
Qed.

End co_changes_more.

(** The counts of [get_co_changes]. With the rows of the log reduced to
    their distinct ([on], [by]) pairs, [changes] is the number of [on] values
    the primary occurs with, and [cochanges] the number it shares with the
    dependency. There is a row for two values exactly when they differ and
    share an [on] value (a value that never occurs with another has no row),
    and one row only. *)
Theorem get_co_changes_counts (log : list scm.LogEntry)
    (by_ on : option core.Column) :
  let out := core.get_co_changes log by_ on in
  let rows := (λ e, (default scm.revision on e, default scm.path by_ e))
              <$> log in
  let ons := pandas.drop_duplicates (default scm.revision on <$> log) in
  (∀ r, r ∈ out →
     core.changes r
     = length (filter (λ o, (o, core.primary r) ∈ rows) ons) ∧
     core.cochanges r
     = length (filter (λ o, (o, core.primary r) ∈ rows ∧
                            (o, core.dependency r) ∈ rows) ons)) ∧
  (∀ p q, (∃ r, r ∈ out ∧ core.primary r = p ∧ core.dependency r = q) ↔
          p ≠ q ∧ ∃ o, (o, p) ∈ rows ∧ (o, q) ∈ rows) ∧
  NoDup ((λ r, (core.primary r, core.dependency r)) <$> out).
Proof.
  intros out rows ons.
  set (df := core.pairs log (default scm.path by_) (default scm.revision on)).
  assert (Hdf : NoDup df) by apply NoDup_drop_duplicates.
  assert (Hons : NoDup ons) by apply NoDup_drop_duplicates.
  assert (Hin : ∀ o p, (o, p) ∈ df ↔ (o, p) ∈ rows)
    by (intros; apply elem_of_pairs).
  assert (Hsub : ∀ o, o ∈ df.*1 → o ∈ ons).
  { intros o ([o' p] & -> & Hop%Hin)%list_elem_of_fmap.
    apply elem_of_drop_duplicates.
    apply list_elem_of_fmap in Hop as (e & [= -> _] & He).
    apply list_elem_of_fmap. eauto. }
  assert (Hcount : ∀ p q,
    length (pandas.group core.pair_key (core.self_join df) [p; q])
    = length (filter (λ o, (o, p) ∈ rows ∧ (o, q) ∈ rows) ons)).
  { intros p q. rewrite (self_join_count_on df ons) by done.
    f_equal. apply list_filter_iff. intros o. by rewrite !Hin. }
  split; [|split].
  - intros r (_ & _ & -> & -> & _)%elem_of_get_co_changes. fold df.
    rewrite !Hcount. split; [|done]. f_equal. apply list_filter_iff. tauto.
  - intros p q. split.
    + intros (r & (Hne & (o & Hp & Hq) & _)%elem_of_get_co_changes & <- & <-).
      split; [done|]. exists o. by split; apply Hin.
    + intros (Hne & o & Hp & Hq).
      eexists (core.mkCoChange p q _ _ _). split; [|done].
      apply elem_of_get_co_changes. simpl. split; [done|].
      split; [exists o; by split; apply Hin|]. done.
  - apply NoDup_get_co_changes_keys.
Qed.

Lemma get_co_changes_counts_witness :
  let r := core.mkCoChange "a" "c" 2 1 (1 # 2) in
  let rows := (λ e, (scm.revision e, scm.path e)) <$> examples.scenario in
  let ons := pandas.drop_duplicates (scm.revision <$> examples.scenario) in
  r ∈ core.get_co_changes examples.scenario None None ∧
  core.changes r = length (filter (λ o, (o, core.primary r) ∈ rows) ons) ∧
  core.cochanges r
  = length (filter (λ o, (o, core.primary r) ∈ rows ∧
                         (o, core.dependency r) ∈ rows) ons).
Proof.
  set (r := core.mkCoChange "a" "c" 2 1 (1 # 2)).
  assert (H : r ∈ core.get_co_changes examples.scenario None None)
    by (vm_compute; set_solver).
  split; [exact H|].
  exact (proj1 (get_co_changes_counts examples.scenario None None) r H).
Defined.

(** The report of [get_co_changes] is symmetric in its pairs: with a row
    for a primary and a dependency comes a row for the dependency as primary
    and the primary as dependency, with the same [cochanges]. *)
Theorem get_co_changes_symmetric (log : list scm.LogEntry)
    (by_ on : option core.Column) (r : core.CoChange) :
  r ∈ core.get_co_changes log by_ on →
  ∃ r', r' ∈ core.get_co_changes log by_ on ∧
        core.primary r' = core.dependency r ∧
        core.dependency r' = core.primary r ∧
        core.cochanges r' = core.cochanges r.
Proof.
  intros (Hne & (o & Hp & Hq) & Hn & Hc & Hx)%elem_of_get_co_changes.
  eexists (core.mkCoChange (core.dependency r) (core.primary r) _ _ _).
  split; [apply elem_of_get_co_changes; simpl|simpl].
  - split; [done|]. split; [by exists o|]. done.
  - split; [done|]. split; [done|]. rewrite Hc.
    apply self_join_count_sym, NoDup_drop_duplicates.
Qed.

Lemma get_co_changes_symmetric_witness :
  let r := core.mkCoChange "a" "c" 2 1 (1 # 2) in
  r ∈ core.get_co_changes examples.scenario None None ∧
  ∃ r', r' ∈ core.get_co_changes examples.scenario None None ∧
        core.primary r' = "c" ∧ core.dependency r' = "a" ∧
        core.cochanges r' = 1.
Proof.
  set (r := core.mkCoChange "a" "c" 2 1 (1 # 2)).
  assert (H : r ∈ core.get_co_changes examples.scenario None None)
    by (vm_compute; set_solver).
  split; [exact H|].
  exact (get_co_changes_symmetric examples.scenario None None r H).
Defined.

(** [get_co_changes] looks at the pairs of [on] and [by] values of the log
    only: two logs with the same pairs, in whatever order and however often
    repeated, give the same rows, up to their order. *)
Theorem get_co_changes_pairs_only (log log' : list scm.LogEntry)
    (by_ on : option core.Column) :
  let pair := λ e, (default scm.revision on e, default scm.path by_ e) in
  (∀ x, x ∈ pair <$> log ↔ x ∈ pair <$> log') →
  core.get_co_changes log by_ on ≡ₚ core.get_co_changes log' by_ on.
Proof.
  intros pair H.
  assert (Hnd : ∀ l, NoDup (core.get_co_changes l by_ on)).
  { intros l. eapply NoDup_fmap_1, NoDup_get_co_changes_keys. }
  pose proof (pairs_Permutation log log' _ _ H) as Hp.
  assert (Hc : ∀ p q,
    length (pandas.group core.pair_key (core.self_join
      (core.pairs log (default scm.path by_) (default scm.revision on))) [p; q])
    = length (pandas.group core.pair_key (core.self_join
      (core.pairs log' (default scm.path by_) (default scm.revision on))) [p; q])).
  { intros p q. apply self_join_count_Permutation; [|done].
    apply NoDup_drop_duplicates. }
  apply NoDup_Permutation; [done..|]. intros r.
  rewrite !elem_of_get_co_changes. cbv zeta. rewrite !Hc.
  by setoid_rewrite Hp.
Qed.

Lemma get_co_changes_pairs_only_witness :
  core.get_co_changes (examples.scenario ++ examples.logged_twice) None None
  ≡ₚ core.get_co_changes (reverse examples.scenario) None None.
Proof.
  apply get_co_changes_pairs_only. intros x. vm_compute. set_solver.
Defined.

(** ** get_hot_spots: the rows of both frames *)

Section hot_spots_more.
Import scm pandas core.

Lemma bind_group_filter {A K} `{EqDecision K} (key : A → K) (l : list A)
    (keys : list K) :
  NoDup keys → keys ≫= group key l ≡ₚ filter (λ x, key x ∈ keys) l.
Proof.
  induction 1 as [|k keys Hk Hnd IH].
  { rewrite filter_none; [done|]. intros x _ Hx. by apply elem_of_nil in Hx. }
  rewrite bind_cons, IH. unfold group. clear IH.
  induction l as [|x l IHl]; [done|]. rewrite !filter_cons.
  destruct (decide (key x = k)) as [<-|Hne].
  - rewrite decide_False by done. rewrite decide_True by left.
    simpl. by rewrite IHl.
  - destruct (decide (key x ∈ keys)).
    + rewrite decide_True by by right.
      by rewrite <- IHl, Permutation_middle.
    + rewrite decide_False; [done|]. rewrite elem_of_cons. naive_solver.
Qed.

(** The groups of all the keys are the list. *)
Lemma bind_group_Permutation {A K} `{EqDecision K} (key : A → K) (l : list A)
    (keys : list K) :
  NoDup keys → (∀ x, x ∈ l → key x ∈ keys) → keys ≫= group key l ≡ₚ l.
Proof.
  intros Hnd Hl. rewrite bind_group_filter by done.
  induction l as [|x l IH]; [done|].
  rewrite filter_cons, decide_True by (apply Hl; left).
  constructor. apply IH. intros y Hy. apply Hl. by right.
Qed.

Lemma NoDup_merge_outer_keys (by_loc : LocRow → string) c_df
    (ch_df : list (string * nat)) :
  NoDup (merge_sort String.le (drop_duplicates ((by_loc <$> c_df) ++ ch_df.*1))).
Proof. rewrite merge_sort_Permutation. apply NoDup_drop_duplicates. Qed.

(** The rows of [c_df] in the merge. *)
Lemma merge_outer_fillna_left by_loc c_df ch_df :
  omap hs_loc (merge_outer_fillna by_loc c_df ch_df) ≡ₚ c_df.
Proof.
  unfold merge_outer_fillna.
  set (keys := merge_sort _ _).
  assert (Hk : ∀ l, l ∈ c_df → by_loc l ∈ keys).
  { intros l Hl. subst keys. rewrite merge_sort_Permutation.
    apply elem_of_drop_duplicates, elem_of_app. left.
    apply list_elem_of_fmap. eauto. }
  trans (keys ≫= group by_loc c_df);
    [|by apply bind_group_Permutation; [apply NoDup_merge_outer_keys|]].
  clear Hk. induction keys as [|k keys IH]; [done|].
  rewrite !bind_cons, omap_app. apply Permutation_app; [|exact IH].
  destruct (group by_loc c_df k) as [|l0 rows]; [done|].
  generalize (l0 :: rows). intros ls.
  induction ls as [|l ls IHl]; [done|]. simpl. by constructor.
Qed.

(** The rows that come from the counts only: one for a key. *)
Lemma merge_outer_fillna_right by_loc c_df ch_df :
  NoDup (hs_key <$> filter (λ r, hs_loc r = None)
                      (merge_outer_fillna by_loc c_df ch_df)).
Proof.
  unfold merge_outer_fillna.
  pose proof (NoDup_merge_outer_keys by_loc c_df ch_df) as Hnd.
  revert Hnd. generalize (merge_sort String.le
    (drop_duplicates ((by_loc <$> c_df) ++ ch_df.*1))).
  intros keys. induction 1 as [|k keys Hk Hnd IH]; [constructor|].
  rewrite bind_cons, filter_app, fmap_app. apply NoDup_app.
  split; [|split; [|done]].
  - destruct (group by_loc c_df k) as [|l0 rows].
    + rewrite filter_cons, decide_True by done. apply NoDup_singleton.
    + rewrite filter_none; [constructor|].
      by intros r (l & -> & _)%list_elem_of_fmap.
  - intros x (r & -> & [_ Hr]%list_elem_of_filter)%list_elem_of_fmap
      (r' & Heq & [_ Hr']%list_elem_of_filter)%list_elem_of_fmap.
    assert (hs_key r = k) as Hrk.
    { destruct (group by_loc c_df k) as [|l0 rows].
      - by apply list_elem_of_singleton in Hr as ->.
      - by apply list_elem_of_fmap in Hr as (l & -> & _). }
    apply list_elem_of_bind in Hr' as (k' & Hr' & Hk').
    assert (hs_key r' = k') as Hrk'.
    { destruct (group by_loc c_df k') as [|l0 rows].
      - by apply list_elem_of_singleton in Hr' as ->.
      - by apply list_elem_of_fmap in Hr' as (l & -> & _). }
    congruence.
Qed.

Lemma changed_Permutation log log' columns :
  (∀ x, x ∈ key_of columns <$> log ↔ x ∈ key_of columns <$> log') →
  changed log columns ≡ₚ changed log' columns.
Proof.
  intros H. unfold changed. apply fmap_Permutation, NoDup_Permutation;
    [apply NoDup_drop_duplicates..|].
  intros x. by rewrite !elem_of_drop_duplicates.
Qed.

Lemma get_hot_spots_ext log log' loc by_ count_one_change_per :
  let columns := default [revision] count_one_change_per
                 ++ [(default (path, loc_path) by_).1] in
  (∀ x, x ∈ key_of columns <$> log ↔ x ∈ key_of columns <$> log') →
  get_hot_spots log loc by_ count_one_change_per
  = get_hot_spots log' loc by_ count_one_change_per.
Proof.
  intros columns H. pose proof (changed_Permutation _ _ _ H) as Hch.
  unfold get_hot_spots, merge_outer_fillna. fold columns.
  apply list_bind_ext.
  - intros k. unfold change_counts. rewrite !lookup_value_counts.
    destruct (decide (k ∈ changed log columns)) as [Hk|Hk].
    + rewrite decide_True by by rewrite <- Hch.
      assert (Hn : length (filter (λ x, x = k) (changed log columns))
                   = length (filter (λ x, x = k) (changed log' columns)))
        by by rewrite Hch.
      by rewrite Hn.
    + rewrite decide_False; [done|]. by rewrite <- Hch.
  - apply (sorted_distinct_ext String.le). intros k.
    rewrite !elem_of_app. unfold change_counts.
    rewrite !value_counts_keys, !elem_of_drop_duplicates. by rewrite Hch.
Qed.

End hot_spots_more.

(** [get_hot_spots] has every row of [loc] once and every other key of the
    log once: the rows of the result that have a row of [loc] behind them
    are the rows of [loc], each as often as it is there; the rows that have
    none are one for each key that is in the log and not in [loc]. *)
Theorem get_hot_spots_rows (log : list scm.LogEntry) (loc : list core.LocRow)
    (by_ : option (core.Column * (core.LocRow → string)))
    (count_one_change_per : option (list core.Column)) :
  let out := core.get_hot_spots log loc by_ count_one_change_per in
  let by_log := (default (scm.path, core.loc_path) by_).1 in
  let by_loc := (default (scm.path, core.loc_path) by_).2 in
  let log_only := core.hs_key <$> filter (λ r, core.hs_loc r = None) out in
  omap core.hs_loc out ≡ₚ loc ∧
  NoDup log_only ∧
  (∀ k, k ∈ log_only ↔ k ∈ by_log <$> log ∧ k ∉ by_loc <$> loc).
Proof.
  cbv zeta. unfold core.get_hot_spots. split; [|split].
  - apply merge_outer_fillna_left.
  - apply merge_outer_fillna_right.
  - intros k. rewrite list_elem_of_fmap.
    setoid_rewrite list_elem_of_filter.
    setoid_rewrite elem_of_merge_outer_fillna.
    unfold core.change_counts.
    setoid_rewrite value_counts_keys.
    setoid_rewrite elem_of_drop_duplicates.
    setoid_rewrite elem_of_changed.
    split.
    + intros (r & -> & Hnone & Hk & _ & Hl). rewrite Hnone in Hl.
      split; [|done]. by destruct Hk.
    + intros [Hk Hl].
      eexists (core.mkHotSpot k None _). simpl.
      split; [done|]. split; [done|]. split; [by right|]. done.
Qed.

Lemma get_hot_spots_rows_witness :
  "b" ∈ core.hs_key
        <$> filter (λ r, core.hs_loc r = None)
              (core.get_hot_spots examples.scenario examples.loc_report
                 None None).
Proof.
  apply (proj2 (proj2 (get_hot_spots_rows examples.scenario
                         examples.loc_report None None))).
  split; vm_compute; set_solver.
Defined.

(** [get_hot_spots] looks at the distinct rows of the columns it counts
    only: two logs with the same rows there, in whatever order and however
    often repeated, give the same rows for the same [loc]. *)
Theorem get_hot_spots_distinct_rows_only (log log' : list scm.LogEntry)
    (loc : list core.LocRow)
    (by_ : option (core.Column * (core.LocRow → string)))
    (count_one_change_per : option (list core.Column)) :
  let columns := default [scm.revision] count_one_change_per
                 ++ [(default (scm.path, core.loc_path) by_).1] in
  (∀ x, x ∈ core.key_of columns <$> log ↔ x ∈ core.key_of columns <$> log') →
  core.get_hot_spots log loc by_ count_one_change_per
  ≡ₚ core.get_hot_spots log' loc by_ count_one_change_per.
Proof.
  intros columns H.
  by rewrite (get_hot_spots_ext log log' loc by_ count_one_change_per H).
Qed.

Lemma get_hot_spots_distinct_rows_only_witness :
  core.get_hot_spots (examples.scenario ++ examples.logged_twice)
    examples.loc_report None None
  ≡ₚ core.get_hot_spots (reverse examples.scenario)
       examples.loc_report None None.
Proof.
  apply get_hot_spots_distinct_rows_only. intros x. vm_compute. set_solver.
Defined.

(** ** guess_components: the name of a cluster *)

Section cluster_name_facts.
Import core.

Lemma weight_feature_ge_iff x y :
  weight_feature_ge x y ↔
  (y.2 < x.2)%Q ∨ ((y.2 == x.2)%Q ∧ String.le y.1 x.1).
Proof.
  unfold weight_feature_ge, weight_feature_geb.
  rewrite orb_True, andb_True, negb_True.
  rewrite (Is_true_true (Qeq_bool _ _)), Qeq_bool_iff.
  rewrite (Is_true_true (Qle_bool _ _)), Qle_bool_iff.
  split; (intros [H|H]; [left|by right]).
  - by apply Qnot_le_lt.
  - by apply Qlt_not_le.
Qed.

#[global] Instance weight_feature_ge_trans : Transitive weight_feature_ge.
Proof.
  intros x y z. rewrite !weight_feature_ge_iff.
  intros [Hyx|[Hyx Hs]] [Hzy|[Hzy Hs']].
  - left. by eapply Qlt_trans.
  - left. by rewrite Hzy.
  - left. by rewrite <- Hyx.
  - right. split; [by rewrite Hzy|]. by trans y.1.
Qed.

#[global] Instance weight_feature_ge_total : Total weight_feature_ge.
Proof.
  intros x y. rewrite !weight_feature_ge_iff.
  destruct (Q_dec x.2 y.2) as [[Hlt|Hgt]|Heq].
  - right. by left.
  - left. by left.
  - destruct (total String.le x.1 y.1).
    + right. right. done.
    + left. right. split; [by symmetry|done].
Qed.

Lemma above_threshold threshold (fw : string * Q) :
  negb (Qle_bool fw.2 threshold) ↔ (threshold < fw.2)%Q.
Proof.
  rewrite negb_True, (Is_true_true (Qle_bool _ _)), Qle_bool_iff.
  split; [apply Qnot_le_lt | apply Qlt_not_le].
Qed.

Lemma StronglySorted_filter {A} (R : relation A) (P : A → Prop)
    `{!∀ x, Decision (P x)} (l : list A) :
  StronglySorted R l → StronglySorted R (filter P l).
Proof.
  intros Hl. rewrite <- (list_fmap_id (filter P l)).
  apply (StronglySorted_fmap_filter R id). by rewrite list_fmap_id.
Qed.

End cluster_name_facts.

(** The name of a cluster, for a weight to every feature: the features
    whose weight is above the threshold, joined with dots, from the highest
    weight to the lowest and, where weights are equal, from the last
    feature in the order of strings to the first. When no weight is above
    the threshold there is nothing to join, and the name is empty: the early
    return gives what the rest of the function would. *)
Theorem cluster_name_spec (features : list string) (center : list Q)
    (threshold : Q) :
  length features = length center →
  ∃ df : list (string * Q),
    core.__cluster_name features center threshold
    = Ok (String.concat "." df.*1) ∧
    df ≡ₚ filter (λ fw, negb (Qle_bool fw.2 threshold))
            (zip features center) ∧
    (∀ fw, fw ∈ df → (threshold < fw.2)%Q) ∧
    StronglySorted
      (λ x y, (y.2 < x.2)%Q ∨ ((y.2 == x.2)%Q ∧ String.le y.1 x.1)) df.
Proof.
  intros Hlen. unfold core.__cluster_name.
  rewrite Hlen, Nat.eqb_refl. simpl.
  set (sorted := merge_sort core.weight_feature_ge (zip features center)).
  assert (Hs : StronglySorted
                 (λ x y, (y.2 < x.2)%Q ∨ ((y.2 == x.2)%Q ∧ String.le y.1 x.1))
                 (filter (λ fw, negb (Qle_bool fw.2 threshold)) sorted)).
  { apply StronglySorted_filter.
    eapply StronglySorted_weaken;
      [|apply (StronglySorted_merge_sort core.weight_feature_ge)].
    intros x y. by rewrite weight_feature_ge_iff. }
  assert (Hp : filter (λ fw, negb (Qle_bool fw.2 threshold)) sorted
               ≡ₚ filter (λ fw, negb (Qle_bool fw.2 threshold))
                    (zip features center)).
  { subst sorted. by rewrite merge_sort_Permutation. }
  assert (Ha : ∀ fw, fw ∈ filter (λ fw, negb (Qle_bool fw.2 threshold)) sorted
                     → (threshold < fw.2)%Q).
  { intros fw [Hfw _]%list_elem_of_filter. by apply above_threshold. }
  destruct (forallb _ sorted) eqn:Hall.
  - exists []. split; [done|]. split; [|split; [|constructor]].
    + rewrite <- Hp. rewrite filter_none; [done|].
      intros fw Hfw. rewrite forallb_forall in Hall.
      apply list_elem_of_In, Hall in Hfw. rewrite Hfw. auto.
    + by intros fw ?%elem_of_nil.
  - by eexists.
Qed.

Lemma cluster_name_spec_witness :
  length examples.features = length examples.center ∧
  core.__cluster_name examples.features examples.center core.threshold_0_4
  = Ok "src.lib" ∧
  ∃ df : list (string * Q),
    core.__cluster_name examples.features examples.center core.threshold_0_4
    = Ok (String.concat "." df.*1) ∧
    df ≡ₚ filter (λ fw, negb (Qle_bool fw.2 core.threshold_0_4))
            (zip examples.features examples.center) ∧
    (∀ fw, fw ∈ df → (core.threshold_0_4 < fw.2)%Q) ∧
    StronglySorted
      (λ x y, (y.2 < x.2)%Q ∨ ((y.2 == x.2)%Q ∧ String.le y.1 x.1)) df.
Proof.
  split; [reflexivity|]. split; [reflexivity|].
  exact (cluster_name_spec examples.features examples.center
           core.threshold_0_4 eq_refl).
Defined.

(** ** get_complexity: the frame of a file *)

Section complexity_facts.
Import core.
Context {Value : Type}.
Implicit Types df : DataFrame Value.

Lemma list_find_not_elem (c : string) (l : list string) :
  c ∉ l → list_find (λ x, x = c) l = None.
Proof.
  intros Hc. apply list_find_None, Forall_forall. by intros x Hx ->.
Qed.

Lemma setitem_new c (v : Value) df :
  c ∉ columns df →
  setitem c v df
  = mkDataFrame (columns df ++ [c]) (index_name df)
                ((λ row, row ++ [Some v]) <$> data df).
Proof. intros Hc. unfold setitem. by rewrite list_find_not_elem. Qed.

End complexity_facts.

(** The frame of [get_complexity], the fields of a function being named
    once each and none of them [file_tokens] or [file_nloc]. Its columns are
    always the fields and these two. An empty group gives no row and an
    index without name. Any other group gives one row for each function of
    the file, with its fields (a missing one is empty), then the tokens and
    the lines of the file, and the index is named [function]; a file without
    functions gives no row, its tokens and lines are nowhere in the frame. *)
Theorem get_complexity_spec {Value : Type} (_lizard_fields : list string)
    (analyze_source_code : option string → string → core.FileInformation Value)
    (download_func : list (string * string) → core.DownloadResult)
    (group : list (string * string)) :
  NoDup _lizard_fields →
  "file_tokens" ∉ _lizard_fields →
  "file_nloc" ∉ _lizard_fields →
  let df := core.get_complexity _lizard_fields analyze_source_code
              download_func group in
  let download := download_func group in
  let info := analyze_source_code (core.dl_path download)
                (core.dl_content download) in
  core.columns df = core._complexity_fields _lizard_fields ∧
  (group = [] → core.data df = [] ∧ core.index_name df = None) ∧
  (group ≠ [] →
     core.index_name df = Some "function" ∧
     core.data df
     = (λ d, ((λ c, d !! c) <$> _lizard_fields)
             ++ [Some (core.token_count info); Some (core.nloc info)])
       <$> core.function_list info).
Proof.
  intros Hnd Htok Hnloc. cbv zeta. unfold core.get_complexity.
  destruct group as [|g group]; simpl.
  { split; [|by split].
    apply drop_duplicates_NoDup. unfold core._complexity_fields.
    apply NoDup_app. split; [done|]. split.
    - intros x Hx [->|[->|[]%elem_of_nil]%elem_of_cons]%elem_of_cons; done.
    - apply NoDup_cons. split; [|apply NoDup_singleton].
      by intros [=]%list_elem_of_singleton. }
  set (info := analyze_source_code _ _).
  set (df0 := match core.function_list info with
              | [] => core.mkDataFrame _lizard_fields None []
              | _ :: _ => core.from_records (core.function_list info)
                            _lizard_fields
              end).
  assert (Hdf0 : df0 = core.mkDataFrame _lizard_fields None
            ((λ d, (λ c, d !! c) <$> _lizard_fields)
               <$> core.function_list info)).
  { subst df0. by destruct (core.function_list info). }
  rewrite Hdf0. rewrite (setitem_new "file_tokens") by by simpl.
  rewrite (setitem_new "file_nloc"); simpl.
  2:{ rewrite elem_of_app, list_elem_of_singleton. by intros [?|[=]]. }
  unfold core._complexity_fields. rewrite <- app_assoc. simpl.
  split; [done|]. split; [done|]. intros _. split; [done|].
  rewrite <- !list_fmap_compose. apply list_fmap_ext. intros i d _. simpl.
  by rewrite <- app_assoc.
Qed.

Lemma get_complexity_spec_witness :
  let df := core.get_complexity examples.lizard_fields examples.analyze_empty
              examples.download0 [("a.py", "1")] in
  core.columns df = ["name"; "nloc"; "file_tokens"; "file_nloc"] ∧
  core.index_name df = Some "function" ∧ core.data df = [].
Proof.
  assert (Hnd : NoDup examples.lizard_fields).
  { apply NoDup_cons. split; [|apply NoDup_singleton].
    by intros [=]%list_elem_of_singleton. }
  assert (Htok : "file_tokens" ∉ examples.lizard_fields).
  { by intros [[=]|[[=]|[]%elem_of_nil]%elem_of_cons]%elem_of_cons. }
  assert (Hnloc : "file_nloc" ∉ examples.lizard_fields).
  { by intros [[=]|[[=]|[]%elem_of_nil]%elem_of_cons]%elem_of_cons. }
  destruct (get_complexity_spec examples.lizard_fields examples.analyze_empty
              examples.download0 [("a.py", "1")] Hnd Htok Hnloc)
    as (Hc & _ & Hr).
  destruct (Hr ltac:(done)) as [Hi Hd].
  split; [exact Hc|]. split; [exact Hi | exact Hd].
Defined.
